(** * JLPT vocabulary cycler: a shallow embedding of [app.py]

    The development follows the layout of the script: the Python values and
    builtins the script relies on, the configuration file reader, the CSV
    reader, the settings dialog, and the cycling engine of [JLPTVocabApp]
    together with the slice of Tk it talks to (the [after] queue, the labels
    and the message boxes).  Statements about the code come after all the
    definitions. *)

From stdpp Require Import gmap strings list fin_maps.
From Stdlib Require Import ZArith Lia Ascii.

Set Warnings "-register-all".
Open Scope string_scope.

(** ** Python values, exceptions and the result of a call *)

(** The exception classes that the script can meet.  All of them derive from
    [Exception], so a bare [except Exception] catches every one. *)
Inductive exn :=
  | FileNotFoundError (msg : string)
  | ValueError (msg : string)
  | TypeError (msg : string)
  | OverflowError (msg : string)
  | AttributeError (msg : string)
  | KeyError (key : string)
  | IndexError (msg : string)
  | OSError (msg : string).

(** A call either returns a value or raises. *)
Inductive result (A : Type) :=
  | Ok (a : A)
  | Raise (e : exn).
Arguments Ok {A} a.
Arguments Raise {A} e.

#[export] Instance result_ret : MRet result := @Ok.
#[export] Instance result_bind : MBind result := λ A B f m,
  match m with
  | Ok a => f a
  | Raise e => Raise e
  end.

(** [try: body / except Exception as e: handler e]. *)
Definition try_except {A} (body : result A) (handler : exn → result A) : result A :=
  match body with
  | Ok a => Ok a
  | Raise e => handler e
  end.

Definition is_value_error (e : exn) : bool :=
  match e with
  | ValueError _ => true
  | _ => false
  end.

(** [str(exc)] *)
Definition exn_message (e : exn) : string :=
  match e with
  | FileNotFoundError m | ValueError m | TypeError m | OverflowError m
  | AttributeError m | KeyError m | IndexError m | OSError m => m
  end.

(** A Python [float]: not-a-number, an infinity, or the finite value
    [mantissa * 2 ^ exponent]. *)
Inductive pyfloat :=
  | FNan
  | FInf (negative : bool)
  | FFinite (mantissa exponent : Z).

(** What [json.loads] can return.  A JSON object becomes a [dict] with string
    keys, where a repeated key keeps its last value. *)
Inductive json :=
  | JNull
  | JBool (b : bool)
  | JInt (z : Z)
  | JFloat (f : pyfloat)
  | JStr (s : string)
  | JList (l : list json)
  | JDict (d : gmap string json).

(** The values of the configuration dictionary, [Dict[str, int | bool]]. *)
Inductive pyval :=
  | VInt (z : Z)
  | VBool (b : bool).

#[export] Instance pyval_eq_dec : EqDecision pyval.
Proof. solve_decision. Defined.

Definition json_of_pyval (v : pyval) : json :=
  match v with
  | VInt z => JInt z
  | VBool b => JBool b
  end.

(** [int(v)] and [bool(v)] on a value of the configuration dictionary. *)
Definition int_of_pyval (v : pyval) : Z :=
  match v with
  | VInt z => z
  | VBool b => if b then 1%Z else 0%Z
  end.

Definition bool_of_pyval (v : pyval) : bool :=
  match v with
  | VInt z => negb (z =? 0)%Z
  | VBool b => b
  end.

(** [int(f)] truncates towards zero and refuses NaN and the infinities. *)
Definition int_of_float (f : pyfloat) : result Z :=
  match f with
  | FNan => Raise (ValueError "cannot convert float NaN to integer")
  | FInf _ => Raise (OverflowError "cannot convert float infinity to integer")
  | FFinite m e =>
      if (0 <=? e)%Z then Ok (m * 2 ^ e)%Z else Ok (m ÷ 2 ^ (- e))%Z
  end.

Definition bool_of_float (f : pyfloat) : bool :=
  match f with
  | FNan => true
  | FInf _ => true
  | FFinite m _ => negb (m =? 0)%Z
  end.

(** [d[key]] on a dictionary. *)
Definition getitem {V} (d : gmap string V) (key : string) : result V :=
  match d !! key with
  | Some v => Ok v
  | None => Raise (KeyError key)
  end.

(** [x[i]] on a list, for an index that is not negative. *)
Definition list_getitem {A} (x : list A) (i : nat) : result A :=
  match x !! i with
  | Some a => Ok a
  | None => Raise (IndexError "list index out of range")
  end.

(** ** The random source and [random.shuffle] *)

(** The generator is an endless tape of raw draws and a reading position. *)
Record Random := mkRandom {
  tape : nat → nat;
  cursor : nat;
}.

(** [randbelow n g] is a number below [n] (for [0 < n]). *)
Definition randbelow (n : nat) (g : Random) : nat * Random :=
  (tape g (cursor g) `mod` n, mkRandom (tape g) (S (cursor g))).

(** [x[i], x[j] = x[j], x[i]] *)
Definition swap {A} (i j : nat) (x : list A) : list A :=
  match x !! i, x !! j with
  | Some a, Some b => <[j:=a]> (<[i:=b]> x)
  | _, _ => x
  end.

(** The loop of [random.shuffle]:
    [for i in reversed(range(1, len(x))): j = randbelow(i + 1); swap]. *)
Fixpoint shuffle_from {A} (i : nat) (x : list A) (g : Random) : list A * Random :=
  match i with
  | 0 => (x, g)
  | S i' =>
      let '(j, g') := randbelow (S i) g in
      shuffle_from i' (swap i j x) g'
  end.

Definition shuffle {A} (x : list A) (g : Random) : list A * Random :=
  shuffle_from (length x - 1) x g.

(** ** Words, timers and the state of the application *)

Record WordEntry := mkWordEntry {
  word : string;
  reading : string;
  meaning : string;
}.

(** [self.stage] is the string ["word"] or ["meaning"]. *)
Inductive stage_t :=
  | StageWord
  | StageMeaning.

(** The two bound methods that the application hands to [after]. *)
Inductive callback :=
  | reveal_cb
  | advance_cb.

(** One entry of Tk's queue of [after] scripts.  The identifier
    ["after#n"] is kept as the number [n]. *)
Record timer := mkTimer {
  handle : nat;
  delay_ms : Z;
  action : callback;
}.

Record Tk := mkTk {
  timers : list timer;
  next_id : nat;
}.

Inductive dialog :=
  | ShowError (title message : string)
  | ShowWarning (title message : string)
  | ShowInfo (title message : string).

(** What the user can see, and what was last written to [config.json]. *)
Record Host := mkHost {
  word_label : string;
  reading_label : string;
  meaning_label : string;
  pause_button : string;
  topmost : bool;
  dialogs : list dialog;
  config_file : option (gmap string pyval);
}.

Record App := mkApp {
  config_data : gmap string pyval;
  words : list WordEntry;
  current_index : nat;
  paused : bool;
  pending_jobs : list nat;
  stage : stage_t;
  rng : Random;
  host : Host;
  tk : Tk;
}.

Definition set_config_data (c : gmap string pyval) (a : App) : App :=
  mkApp c (words a) (current_index a) (paused a) (pending_jobs a) (stage a)
    (rng a) (host a) (tk a).
Definition set_words (w : list WordEntry) (a : App) : App :=
  mkApp (config_data a) w (current_index a) (paused a) (pending_jobs a)
    (stage a) (rng a) (host a) (tk a).
Definition set_current_index (i : nat) (a : App) : App :=
  mkApp (config_data a) (words a) i (paused a) (pending_jobs a) (stage a)
    (rng a) (host a) (tk a).
Definition set_paused (p : bool) (a : App) : App :=
  mkApp (config_data a) (words a) (current_index a) p (pending_jobs a)
    (stage a) (rng a) (host a) (tk a).
Definition set_pending_jobs (j : list nat) (a : App) : App :=
  mkApp (config_data a) (words a) (current_index a) (paused a) j (stage a)
    (rng a) (host a) (tk a).
Definition set_stage (s : stage_t) (a : App) : App :=
  mkApp (config_data a) (words a) (current_index a) (paused a)
    (pending_jobs a) s (rng a) (host a) (tk a).
Definition set_rng (g : Random) (a : App) : App :=
  mkApp (config_data a) (words a) (current_index a) (paused a)
    (pending_jobs a) (stage a) g (host a) (tk a).
Definition set_host (h : Host) (a : App) : App :=
  mkApp (config_data a) (words a) (current_index a) (paused a)
    (pending_jobs a) (stage a) (rng a) h (tk a).
Definition set_tk (t : Tk) (a : App) : App :=
  mkApp (config_data a) (words a) (current_index a) (paused a)
    (pending_jobs a) (stage a) (rng a) (host a) t.

(** [label.config(text=...)] and friends. *)
Definition set_word_label (s : string) (h : Host) : Host :=
  mkHost s (reading_label h) (meaning_label h) (pause_button h) (topmost h)
    (dialogs h) (config_file h).
Definition set_reading_label (s : string) (h : Host) : Host :=
  mkHost (word_label h) s (meaning_label h) (pause_button h) (topmost h)
    (dialogs h) (config_file h).
Definition set_meaning_label (s : string) (h : Host) : Host :=
  mkHost (word_label h) (reading_label h) s (pause_button h) (topmost h)
    (dialogs h) (config_file h).
Definition set_pause_button (s : string) (h : Host) : Host :=
  mkHost (word_label h) (reading_label h) (meaning_label h) s (topmost h)
    (dialogs h) (config_file h).
Definition set_topmost (b : bool) (h : Host) : Host :=
  mkHost (word_label h) (reading_label h) (meaning_label h) (pause_button h)
    b (dialogs h) (config_file h).
Definition messagebox (d : dialog) (h : Host) : Host :=
  mkHost (word_label h) (reading_label h) (meaning_label h) (pause_button h)
    (topmost h) (dialogs h ++ [d]) (config_file h).
Definition write_config (c : gmap string pyval) (h : Host) : Host :=
  mkHost (word_label h) (reading_label h) (meaning_label h) (pause_button h)
    (topmost h) (dialogs h) (Some c).

(** [self.after(delay, callback)]: a fresh identifier, queued. *)
Definition after (delay : Z) (cb : callback) (t : Tk) : nat * Tk :=
  (next_id t, mkTk (timers t ++ [mkTimer (next_id t) delay cb]) (S (next_id t))).

(** [self.after_cancel(job)]: the script is dropped from the queue when it is
    still there; for a job that already ran nothing happens. *)
Definition after_cancel (job : nat) (t : Tk) : Tk :=
  mkTk (filter (λ x, handle x ≠ job) (timers t)) (next_id t).

Definition DEFAULT_CONFIG : gmap string pyval :=
  <["showMeaningTimer" := VInt 3]>
    (<["nextWordTimer" := VInt 5]> (<["alwaysOnTop" := VBool true]> ∅)).

(** A configuration with all three keys. *)
Definition config_of (show_timer next_timer : Z) (always_on_top : bool)
    : gmap string pyval :=
  <["showMeaningTimer" := VInt show_timer]>
    (<["nextWordTimer" := VInt next_timer]>
      (<["alwaysOnTop" := VBool always_on_top]> ∅)).

Definition raises {A} (r : result A) : Prop := ∃ e, r = Raise e.

(** [bool(v)] on a JSON value never raises. *)
Definition bool_of_json (v : json) : bool :=
  match v with
  | JNull => false
  | JBool b => b
  | JInt z => negb (z =? 0)%Z
  | JFloat f => bool_of_float f
  | JStr s => negb (String.eqb s "")
  | JList l => match l with [] => false | _ => true end
  | JDict d => negb (bool_decide (d = ∅))
  end.

(** [data.get(key, default)]: only a [dict] has the method. *)
Definition json_get (data : json) (key : string) (dflt : json) : result json :=
  match data with
  | JDict d => Ok (default dflt (d !! key))
  | _ => Raise (AttributeError "object has no attribute 'get'")
  end.

(** ** [Path.name]

    The last component of a path written with [/], as the file dialog of Tk
    returns it; empty components and [.] do not count. *)

Definition is_component (s : string) : bool :=
  negb (String.eqb s "") && negb (String.eqb s ".").

Fixpoint last_component (path current name : string) : string :=
  match path with
  | EmptyString => if is_component current then current else name
  | String c rest =>
      if Ascii.eqb c "/"
      then last_component rest "" (if is_component current then current else name)
      else last_component rest (current ++ String c "") name
  end.

Definition path_name (path : string) : string := last_component path "" "".

(** ** Two concrete builtins, for running the script on examples

    [strip_ascii] removes the ASCII white space at both ends, and
    [int_of_decimal] reads an optional sign followed by ASCII digits.  Python
    accepts more: other white space (such as U+3000), other decimal digits,
    and underscores between digits (such as 1_000).  The two agree with
    Python on texts made of ASCII white space, a sign and ASCII digits, which
    is all they are applied to below. *)

Definition is_space (c : ascii) : bool :=
  let n := nat_of_ascii c in
  ((9 <=? n) && (n <=? 13) || (28 <=? n) && (n <=? 32))%nat.

Fixpoint lstrip (s : string) : string :=
  match s with
  | EmptyString => EmptyString
  | String c s' => if is_space c then lstrip s' else s
  end.

Fixpoint rstrip (s : string) : string :=
  match s with
  | EmptyString => EmptyString
  | String c s' =>
      let r := rstrip s' in
      if is_space c && String.eqb r "" then "" else String c r
  end.

Definition strip_ascii (s : string) : string := rstrip (lstrip s).

Fixpoint digits (s : string) (acc : Z) : option Z :=
  match s with
  | EmptyString => Some acc
  | String c s' =>
      let n := nat_of_ascii c in
      if ((48 <=? n) && (n <=? 57))%nat
      then digits s' (acc * 10 + Z.of_nat (n - 48))%Z
      else None
  end.

Definition int_of_decimal (s : string) : option Z :=
  match strip_ascii s with
  | EmptyString => None
  | String c r =>
      if Ascii.eqb c "-" then
        (if String.eqb r "" then None else Z.opp <$> digits r 0)
      else if Ascii.eqb c "+" then
        (if String.eqb r "" then None else digits r 0)
      else digits (String c r) 0
  end.

Section Script.

(** Two builtins on [str] are kept abstract: [s.strip()] and [int(s)] (which
    raises [ValueError] exactly when the text is not an integer literal).
    Nothing is assumed about either. *)
Variable strip : string → string.
Variable int_of_str : string → option Z.

(** [int(v)] on a JSON value. *)
Definition int_of_json (v : json) : result Z :=
  match v with
  | JNull => Raise (TypeError "int() argument must not be 'NoneType'")
  | JBool b => Ok (if b then 1%Z else 0%Z)
  | JInt z => Ok z
  | JFloat f => int_of_float f
  | JStr s =>
      match int_of_str s with
      | Some z => Ok z
      | None => Raise (ValueError "invalid literal for int() with base 10")
      end
  | JList _ => Raise (TypeError "int() argument must not be 'list'")
  | JDict _ => Raise (TypeError "int() argument must not be 'dict'")
  end.

(** ** [load_config] *)

(** The dictionary display inside the [try] block. *)
Definition read_config (data : json) : result (gmap string pyval) :=
  d1 ← getitem DEFAULT_CONFIG "showMeaningTimer";
  v1 ← json_get data "showMeaningTimer" (json_of_pyval d1);
  show_timer ← int_of_json v1;
  d2 ← getitem DEFAULT_CONFIG "nextWordTimer";
  v2 ← json_get data "nextWordTimer" (json_of_pyval d2);
  next_timer ← int_of_json v2;
  d3 ← getitem DEFAULT_CONFIG "alwaysOnTop";
  v3 ← json_get data "alwaysOnTop" (json_of_pyval d3);
  mret (<["showMeaningTimer" := VInt show_timer]>
         (<["nextWordTimer" := VInt next_timer]>
           (<["alwaysOnTop" := VBool (bool_of_json v3)]> ∅))).

(** The file is [None] when [path.exists()] is false; otherwise it holds what
    [json.loads(path.read_text(encoding="utf-8"))] does: the parsed value, or
    the exception of the read, the decoding or the parse. *)
Definition load_config (file : option (result json)) : result (gmap string pyval) :=
  returned ←
    match file with
    | Some content =>
        try_except (data ← content; c ← read_config data; mret (Some c))
                   (λ _, mret None)
    | None => mret None
    end;
  match returned with
  | Some c => mret c
  | None => mret DEFAULT_CONFIG
  end.

(** ** [load_words_from_csv] *)

(** One row of [csv.DictReader]: [dict(zip(fieldnames, row))], then the
    fields that a short row lacks are set to [None].  The surplus cells of a
    long row go under the key [None], which no lookup below can reach. *)
Definition row_dict (fieldnames row : list string) : gmap string (option string) :=
  let d := foldl (λ d kv, <[kv.1 := Some kv.2]> d) ∅ (zip fieldnames row) in
  foldl (λ d k, <[k := None]> d) d (drop (length row) fieldnames).

(** [(row.get(key) or "")] *)
Definition get_or_empty (d : gmap string (option string)) (key : string) : string :=
  match d !! key with
  | Some (Some s) => s
  | _ => ""
  end.

Definition required_fields : list string := ["word"; "reading"; "meaning"].

(** The body of [for row in reader], with the entries collected so far.
    [DictReader] itself skips the rows that [csv.reader] returns empty. *)
Fixpoint read_rows (fieldnames : list string) (rows : list (list string))
    (entries : list WordEntry) : list WordEntry :=
  match rows with
  | [] => entries
  | [] :: rest => read_rows fieldnames rest entries
  | row :: rest =>
      let d := row_dict fieldnames row in
      let word := strip (get_or_empty d "word") in
      let reading := strip (get_or_empty d "reading") in
      let meaning := strip (get_or_empty d "meaning") in
      if String.eqb word "" then read_rows fieldnames rest entries
      else read_rows fieldnames rest (entries ++ [mkWordEntry word reading meaning])
  end.

(** The file is [None] when the path does not exist, and otherwise the rows
    that [csv.reader] yields for it, the header row first. *)
Definition load_words_from_csv (path : string)
    (file : option (list (list string))) : result (list WordEntry) :=
  match file with
  | None => Raise (FileNotFoundError (path ++ " 파일이 존재하지 않습니다."))
  | Some lines =>
      let fieldnames := default [] (head lines) in
      if forallb (λ f, bool_decide (f ∈ fieldnames)) required_fields
      then Ok (read_rows fieldnames (tail lines) [])
      else Raise (ValueError "CSV 헤더는 word, reading, meaning 을 포함해야 합니다.")
  end.

(** The deck source as the interface describes it: of the rows that
    [DictReader] yields, those whose word is empty after trimming are
    dropped, and every other row becomes an entry of its three trimmed
    fields, in the order of the rows. *)
Definition described_entry (fieldnames row : list string) : option WordEntry :=
  let d := row_dict fieldnames row in
  if decide (strip (get_or_empty d "word") = "") then None
  else Some (mkWordEntry (strip (get_or_empty d "word"))
                         (strip (get_or_empty d "reading"))
                         (strip (get_or_empty d "meaning"))).

Definition described_entries (fieldnames : list string)
    (rows : list (list string)) : list WordEntry :=
  omap (described_entry fieldnames) (filter (λ row, row ≠ []) rows).

(** ** [SettingsWindow._validate_timer] *)

Definition _validate_timer (value field_name : string) : result Z :=
  let value := strip value in
  if String.eqb value "" then
    Raise (ValueError (field_name ++ " 값을 입력하세요."))
  else
    number ←
      match int_of_str value with
      | Some n => Ok n
      | None => Raise (ValueError (field_name ++ "은(는) 정수여야 합니다."))
      end;
    if (number <? 0)%Z then
      Raise (ValueError (field_name ++ "은(는) 0 이상이어야 합니다."))
    else Ok number.

(** ** [JLPTVocabApp] *)

Definition apply_topmost_setting (self : App) : App :=
  set_host (set_topmost
    (bool_of_pyval (default (VBool true) (config_data self !! "alwaysOnTop")))
    (host self)) self.

(** [save_config]: the write is taken to succeed. *)
Definition save_config (config : gmap string pyval) (self : App) : App :=
  set_host (write_config config (host self)) self.

Definition cancel_pending_jobs (self : App) : App :=
  let t := foldl (λ t job, after_cancel job t) (tk self) (pending_jobs self) in
  set_pending_jobs [] (set_tk t self).

Definition set_labels (w r m : string) (self : App) : App :=
  set_host (set_meaning_label m (set_reading_label r
    (set_word_label w (host self)))) self.

(** [max(0, int(self.config_data.get(key, 0))) * 1000] *)
Definition delay_of (self : App) (key : string) : Z :=
  (Z.max 0 (int_of_pyval (default (VInt 0) (config_data self !! key))) * 1000)%Z.

(** [job = self.after(delay_ms, cb); self.pending_jobs.append(job)] *)
Definition schedule (delay : Z) (cb : callback) (self : App) : App :=
  let '(job, t) := after delay cb (tk self) in
  set_pending_jobs (pending_jobs self ++ [job]) (set_tk t self).

Definition show_current_word (self : App) : result App :=
  let self := cancel_pending_jobs self in
  match words self with
  | [] => Ok (set_labels "단어 목록이 없습니다." "" "" self)
  | _ :: _ =>
      entry ← list_getitem (words self) (current_index self);
      let self := set_labels (word entry) "" "" self in
      let self := set_stage StageWord self in
      if paused self then Ok self
      else Ok (schedule (delay_of self "showMeaningTimer") reveal_cb self)
  end.

Definition reveal_current_word (self : App) : result App :=
  match words self with
  | [] => Ok self
  | _ :: _ =>
      entry ← list_getitem (words self) (current_index self);
      let self :=
        set_host (set_meaning_label (meaning entry)
          (set_reading_label (reading entry) (host self))) self in
      let self := set_stage StageMeaning self in
      if paused self then Ok self
      else Ok (schedule (delay_of self "nextWordTimer") advance_cb self)
  end.

(** [random.shuffle(self.words)] *)
Definition shuffle_words (self : App) : App :=
  let '(w, g) := shuffle (words self) (rng self) in
  set_rng g (set_words w self).

Definition advance_to_next_word (self : App) : result App :=
  match words self with
  | [] => Ok self
  | _ :: _ =>
      let self :=
        set_current_index (S (current_index self) `mod` length (words self)) self in
      let self :=
        if Nat.eqb (current_index self) 0 then shuffle_words self else self in
      show_current_word self
  end.

Definition toggle_pause (self : App) : result App :=
  if paused self then
    let self := set_paused false self in
    let self := set_host (set_pause_button "일시정지" (host self)) self in
    show_current_word self
  else
    let self := set_paused true self in
    let self := set_host (set_pause_button "재생" (host self)) self in
    Ok (cancel_pending_jobs self).

Definition update_config (config : gmap string pyval) (self : App) : result App :=
  let self := set_config_data config self in
  let self := save_config (config_data self) self in
  let self := apply_topmost_setting self in
  if paused self then Ok self else show_current_word self.

(** The boolean is the value that the method returns. *)
Definition load_words_from_path (path : string)
    (file : option (list (list string))) (self : App) : result (App * bool) :=
  match load_words_from_csv path file with
  | Raise exc =>
      Ok (set_host (messagebox
            (ShowError "단어 불러오기"
               ("CSV 파일을 불러오는 중 오류가 발생했습니다: " ++ exn_message exc))
            (host self)) self, false)
  | Ok [] =>
      Ok (set_host (messagebox
            (ShowWarning "단어 불러오기" "CSV 파일에 단어가 없습니다.")
            (host self)) self, false)
  | Ok entries =>
      let self := set_words entries self in
      let self := shuffle_words self in
      let self := set_current_index 0 self in
      if paused self then
        Ok (set_labels "단어를 불러왔습니다. 재생을 눌러 시작하세요." "" "" self, true)
      else
        self ← show_current_word self;
        mret (self, true)
  end.

Definition on_close (self : App) : App := cancel_pending_jobs self.

(** *** The settings dialog *)

(** [SettingsWindow.import_words]: the choice is [None] when the file dialog
    is dismissed; otherwise it is the chosen path and what is found there. *)
Definition import_words (choice : option (string * option (list (list string))))
    (self : App) : result App :=
  match choice with
  | None => Ok self
  | Some (path, file) =>
      '(self, success) ← load_words_from_path path file self;
      if (success : bool) then
        Ok (set_host (messagebox
              (ShowInfo "단어 불러오기"
                 (path_name path ++ " 파일에서 단어를 불러왔습니다."))
              (host self)) self)
      else Ok self
  end.

(** [SettingsWindow.save_settings], on the texts of the two entry fields and
    the state of the check button. *)
Definition save_settings (show_text next_text : string) (always_on_top : bool)
    (self : App) : result App :=
  let validated :=
    show_timer ← _validate_timer show_text "발음/뜻 표시 시간";
    next_timer ← _validate_timer next_text "다음 단어 표시 시간";
    mret (show_timer, next_timer) in
  match validated with
  | Raise exc =>
      if is_value_error exc then
        Ok (set_host (messagebox
              (ShowError "설정 오류" (exn_message exc))
              (host self)) self)
      else Raise exc
  | Ok (show_timer, next_timer) =>
      let config : gmap string pyval :=
        <["showMeaningTimer" := VInt show_timer]>
          (<["nextWordTimer" := VInt next_timer]>
            (<["alwaysOnTop" := VBool always_on_top]> ∅)) in
      self ← update_config config self;
      mret (set_host (messagebox (ShowInfo "설정" "설정을 저장했습니다.")
                       (host self)) self)
  end.

(** *** Start-up *)

(** [JLPTVocabApp.__init__], from what is stored at [CONFIG_PATH] and at
    [DEFAULT_WORDS_PATH] and the state of the random generator.  The two
    paths lie in the directory of the script, which is not part of the
    model: the word file is named from there, as [words.csv]. *)
Definition init (config_stored : option (result json))
    (words_stored : option (list (list string))) (g : Random) : result App :=
  config ← load_config config_stored;
  let h := mkHost "" "" "" "일시정지" false []
             match config_stored with Some _ => None | None => Some config end in
  let '(entries, h) :=
    match load_words_from_csv "words.csv" words_stored with
    | Ok entries => (entries, h)
    | Raise exc =>
        ([], messagebox
               (ShowError "오류"
                  ("기본 단어 파일을 불러오지 못했습니다: " ++ exn_message exc)) h)
    end in
  let self := mkApp config entries 0 false [] StageWord g h (mkTk [] 0) in
  let self := shuffle_words self in
  let self :=
    match words self with
    | [] => set_host (set_word_label "단어 목록이 없습니다." (host self)) self
    | _ :: _ => self
    end in
  let self := apply_topmost_setting self in
  show_current_word self.

(** *** The event loop *)

(** What the Tk main loop can deliver to the application: a script queued
    with [after] that comes due, a press on the pause button, and the two
    buttons of the settings dialog.  Tk runs one handler at a time on a single
    thread; the message boxes of a handler open before it changes anything or
    after it has changed everything, so a script that comes due while a box is
    open runs between two handlers. *)
Inductive event :=
  | EvTimer (job : nat)
  | EvTogglePause
  | EvSaveSettings (show_text next_text : string) (always_on_top : bool)
  | EvImportWords (choice : option (string * option (list (list string)))).

(** An [after] script that comes due leaves the queue and then runs. *)
Definition fire (job : nat) (self : App) : result App :=
  match list_find (λ x, handle x = job) (timers (tk self)) with
  | None => Ok self
  | Some (_, x) =>
      let self := set_tk (after_cancel job (tk self)) self in
      match action x with
      | reveal_cb => reveal_current_word self
      | advance_cb => advance_to_next_word self
      end
  end.

(** An event that names a job which is not queued is no event at all. *)
Definition step (ev : event) (self : App) : result App :=
  match ev with
  | EvTimer job => fire job self
  | EvTogglePause => toggle_pause self
  | EvSaveSettings s n top => save_settings s n top self
  | EvImportWords choice => import_words choice self
  end.

(** Running [advance_to_next_word] [n] times in a row, and the entry that is
    current before each of the calls. *)
Fixpoint advance_times (n : nat) (self : App) : result App :=
  match n with
  | 0 => Ok self
  | S n' => self ← advance_to_next_word self; advance_times n' self
  end.

Fixpoint visited (n : nat) (self : App) : result (list WordEntry) :=
  match n with
  | 0 => Ok []
  | S n' =>
      entry ← list_getitem (words self) (current_index self);
      self ← advance_to_next_word self;
      rest ← visited n' self;
      mret (entry :: rest)
  end.

(** The identifiers in [pending_jobs] whose script is still in Tk's queue. *)
Definition live_jobs (self : App) : list nat :=
  filter (λ job, job ∈ handle <$> timers (tk self)) (pending_jobs self).

(** The states of the application over its lifetime, from [__init__] to the
    closing of the window. *)
Inductive reachable : App → Prop :=
  | reachable_init c w g self :
      init c w g = Ok self → reachable self
  | reachable_step ev self self' :
      reachable self → step ev self = Ok self' → reachable self'.

End Script.

Open Scope nat_scope.

(** ** Shapes of states

    The position is a valid index whenever there is a deck. *)
Definition index_ok (self : App) : Prop :=
  words self ≠ [] → current_index self < length (words self).

(** Every script in Tk's queue is listed in [pending_jobs]. *)
Definition tracked (self : App) : Prop :=
  ∀ x, x ∈ timers (tk self) → handle x ∈ pending_jobs self.

(** Nothing is queued, and the identifiers in [pending_jobs] are distinct and
    were handed out by [after] earlier. *)
Record settled (self : App) : Prop := {
  settled_queue : timers (tk self) = [];
  settled_fresh : Forall (λ job, job < next_id (tk self)) (pending_jobs self);
  settled_nodup : NoDup (pending_jobs self);
  settled_index : index_ok self;
}.

(** The invariant of the engine. *)
Record engine_inv (self : App) : Prop := {
  inv_single : length (timers (tk self)) ≤ 1;
  inv_latest : ∀ x, x ∈ timers (tk self) →
    handle x ∈ pending_jobs self ∧ S (handle x) = next_id (tk self);
  inv_fresh : Forall (λ job, job < next_id (tk self)) (pending_jobs self);
  inv_nodup : NoDup (pending_jobs self);
  inv_running : ∀ x, x ∈ timers (tk self) →
    paused self = false ∧ words self ≠ [] ∧ (0 ≤ delay_ms x)%Z;
  inv_index : index_ok self;
}.

(** ** Sample inputs *)

Definition sample_rng : Random := mkRandom (λ n, 7 * n + 3) 0.

(** A word list with a blank line, a row whose word is blank, a short row and
    a long row. *)
Definition sample_csv : option (list (list string)) :=
  Some [["word"; "reading"; "meaning"];
        ["猫"; "ねこ"; "cat"];
        [];
        ["  "; "x"; "y"];
        [" 犬 "; "いぬ"];
        ["鳥"; "とり"; "bird"; "extra"]]%string.

Definition header_only_csv : option (list (list string)) :=
  Some [["word"; "reading"; "meaning"]]%string.

(** The application right after start-up on [sample_csv], without a stored
    configuration. *)
Definition sample_app : App :=
  mkApp DEFAULT_CONFIG
    [mkWordEntry "犬" "いぬ" ""; mkWordEntry "鳥" "とり" "bird";
     mkWordEntry "猫" "ねこ" "cat"]%string
    0 false [0] StageWord (mkRandom (tape sample_rng) 2)
    (mkHost "犬" "" "" "일시정지" true [] (Some DEFAULT_CONFIG))%string
    (mkTk [mkTimer 0 3000 reveal_cb] 1).

(** The application right after start-up when there is no word list. *)
Definition sample_blank : App :=
  mkApp DEFAULT_CONFIG [] 0 false [] StageWord sample_rng
    (mkHost "단어 목록이 없습니다." "" "" "일시정지" true
       [ShowError "오류"
          "기본 단어 파일을 불러오지 못했습니다: words.csv 파일이 존재하지 않습니다."]
       (Some DEFAULT_CONFIG))%string
    (mkTk [] 0).

(** A stored configuration with a negative timer, and the application
    running with it. *)
Definition negative_stored : option (result json) :=
  Some (Ok (JDict (<["showMeaningTimer"%string := JInt (-4)]> ∅))).

Definition sample_negative : App :=
  set_config_data (config_of (-4) 5 true) sample_app.

(** ** The window drag handlers *)

(** The two fields of [tk.Event] that the handlers read. *)
Record Pointer := mkPointer {
  x_root : Z;
  y_root : Z;
}.

Record Drag := mkDrag {
  _drag_offset_x : Z;
  _drag_offset_y : Z;
}.

(** [start_move], on the event and on what [winfo_x()] and [winfo_y()]
    return at that moment. *)
Definition start_move (event : Pointer) (winfo_x winfo_y : Z) : Drag :=
  mkDrag (x_root event - winfo_x) (y_root event - winfo_y).

(** [do_move]: the position asked for with [self.geometry(f"+{new_x}+{new_y}")]. *)
Definition do_move (event : Pointer) (self : Drag) : Z * Z :=
  let new_x := (x_root event - _drag_offset_x self)%Z in
  let new_y := (y_root event - _drag_offset_y self)%Z in
  (new_x, new_y).

(** ** What a later start finds in [config.json]

    [json.dumps] followed by [json.loads] gives back a dictionary of integers
    and booleans as it was. *)
Definition stored_config (h : Host) : option (result json) :=
  (λ c : gmap string pyval, Ok (JDict (json_of_pyval <$> c))) <$> config_file h.

(** ** The display of a running engine *)

(** Exactly one script is queued: [cb], with the delay that the current
    configuration gives for [key]. *)
Definition queued_for (self : App) (cb : callback) (key : string) : Prop :=
  ∃ t, timers (tk self) = [t] ∧ action t = cb ∧ delay_ms t = delay_of self key.

(** While the engine runs, the labels show the current entry up to the stage
    reached, and the script of the next stage is queued. *)
Definition display_ok (self : App) : Prop :=
  paused self = false →
  ∀ entry, words self !! current_index self = Some entry →
    word_label (host self) = word entry
    ∧ match stage self with
      | StageWord =>
          reading_label (host self) = ""%string
          ∧ meaning_label (host self) = ""%string
          ∧ queued_for self reveal_cb "showMeaningTimer"
      | StageMeaning =>
          reading_label (host self) = reading entry
          ∧ meaning_label (host self) = meaning entry
          ∧ queued_for self advance_cb "nextWordTimer"
      end.

(** The configuration has the three keys, with integers for the timers. *)
Definition config_ok (self : App) : Prop :=
  ∃ a b t, config_data self = config_of a b t.

(** No entry of the deck has an empty word. *)
Definition words_ok (self : App) : Prop :=
  Forall (λ e, word e ≠ ""%string) (words self).

Record app_inv (self : App) : Prop := {
  app_display : display_ok self;
  app_config : config_ok self;
  app_words : words_ok self;
}.

(** * Properties of the script *)

(** ** Subscripts *)

Lemma list_getitem_Ok {A} (x : list A) (i : nat) (a : A) :
  x !! i = Some a → list_getitem x i = Ok a.
Proof. intros H. unfold list_getitem. by rewrite H. Qed.

Lemma list_getitem_lt {A} (x : list A) (i : nat) :
  i < length x → ∃ a, x !! i = Some a ∧ list_getitem x i = Ok a.
Proof.
  intros Hi. destruct (lookup_lt_is_Some_2 x i Hi) as [a Ha].
  exists a. split; [done | by apply list_getitem_Ok].
Qed.

(** ** [random.shuffle] permutes *)

Lemma swap_perm {A} (i j : nat) (x : list A) : swap i j x ≡ₚ x.
Proof.
  unfold swap.
  destruct (x !! i) as [a|] eqn:Hi; [|done].
  destruct (x !! j) as [b|] eqn:Hj; [|done].
  by apply Permutation_insert_swap.
Qed.

Lemma shuffle_from_perm {A} (i : nat) (x : list A) (g : Random) :
  (shuffle_from i x g).1 ≡ₚ x.
Proof.
  revert x g. induction i as [|i IH]; intros x g; [done|].
  cbn [shuffle_from]. destruct (randbelow (S (S i)) g) as [j g'].
  rewrite IH. apply swap_perm.
Qed.

Lemma shuffle_perm {A} (x : list A) (g : Random) : (shuffle x g).1 ≡ₚ x.
Proof. apply shuffle_from_perm. Qed.

Lemma shuffle_length {A} (x : list A) (g : Random) :
  length (shuffle x g).1 = length x.
Proof. apply Permutation_length, shuffle_perm. Qed.

Lemma words_shuffle_words (self : App) :
  words (shuffle_words self) = (shuffle (words self) (rng self)).1.
Proof. unfold shuffle_words. by destruct (shuffle _ _). Qed.

Lemma shuffle_words_fields (self : App) :
  current_index (shuffle_words self) = current_index self
  ∧ paused (shuffle_words self) = paused self
  ∧ pending_jobs (shuffle_words self) = pending_jobs self
  ∧ stage (shuffle_words self) = stage self
  ∧ tk (shuffle_words self) = tk self
  ∧ host (shuffle_words self) = host self
  ∧ config_data (shuffle_words self) = config_data self.
Proof. unfold shuffle_words. by destruct (shuffle _ _). Qed.

(** ** The [after] queue *)

Lemma cancel_all_next_id (jobs : list nat) (t : Tk) :
  next_id (foldl (λ t job, after_cancel job t) t jobs) = next_id t.
Proof. revert t. induction jobs as [|j jobs IH]; intros t; [done|]. simpl. by rewrite IH. Qed.

Lemma cancel_all_timers (jobs : list nat) (t : Tk) :
  timers (foldl (λ t job, after_cancel job t) t jobs)
  = filter (λ x, handle x ∉ jobs) (timers t).
Proof.
  revert t. induction jobs as [|j jobs IH]; intros t.
  - cbn [foldl]. induction (timers t) as [|x l IHl]; [done|].
    rewrite filter_cons_True; [by rewrite <- IHl | apply not_elem_of_nil].
  - cbn [foldl]. rewrite IH. cbn [after_cancel timers].
    rewrite list_filter_filter. apply list_filter_iff. intros x.
    rewrite not_elem_of_cons. tauto.
Qed.

Lemma timers_cancel_pending_jobs (self : App) :
  timers (tk (cancel_pending_jobs self))
  = filter (λ x, handle x ∉ pending_jobs self) (timers (tk self)).
Proof. apply cancel_all_timers. Qed.

Lemma next_id_cancel_pending_jobs (self : App) :
  next_id (tk (cancel_pending_jobs self)) = next_id (tk self).
Proof. apply cancel_all_next_id. Qed.

(** When every queued script is listed in [pending_jobs], cancelling empties
    the queue. *)
Lemma cancel_pending_jobs_clears (self : App) :
  (∀ x, x ∈ timers (tk self) → handle x ∈ pending_jobs self) →
  timers (tk (cancel_pending_jobs self)) = [].
Proof.
  intros Htracked. rewrite timers_cancel_pending_jobs.
  apply elem_of_nil_inv. intros x [Hx Hin]%list_elem_of_filter.
  apply Hx, Htracked, Hin.
Qed.

(** ** Equations for the transitions *)

Lemma show_current_word_empty (self : App) :
  words self = [] →
  show_current_word self
  = Ok (set_labels "단어 목록이 없습니다." "" "" (cancel_pending_jobs self)).
Proof. intros H. unfold show_current_word. cbn. by rewrite H. Qed.

Lemma show_current_word_entry (self : App) (entry : WordEntry) :
  words self !! current_index self = Some entry →
  show_current_word self
  = Ok (let shown := set_stage StageWord
                       (set_labels (word entry) "" "" (cancel_pending_jobs self)) in
        if paused self then shown
        else schedule (delay_of shown "showMeaningTimer") reveal_cb shown).
Proof.
  intros H. unfold show_current_word. cbn.
  destruct (words self) as [|w ws] eqn:Hw; [done|].
  unfold list_getitem. rewrite H. cbn. by destruct (paused self).
Qed.

Lemma reveal_current_word_entry (self : App) (entry : WordEntry) :
  words self !! current_index self = Some entry →
  reveal_current_word self
  = Ok (let shown := set_stage StageMeaning
                       (set_host (set_meaning_label (meaning entry)
                          (set_reading_label (reading entry) (host self))) self) in
        if paused self then shown
        else schedule (delay_of shown "nextWordTimer") advance_cb shown).
Proof.
  intros H. unfold reveal_current_word.
  destruct (words self) as [|w ws] eqn:Hw; [done|].
  unfold list_getitem. rewrite H. cbn. by destruct (paused self).
Qed.

Lemma advance_to_next_word_wrap (self : App) :
  words self ≠ [] →
  S (current_index self) `mod` length (words self) = 0 →
  advance_to_next_word self
  = show_current_word (shuffle_words (set_current_index 0 self)).
Proof.
  intros Hne Hwrap. unfold advance_to_next_word.
  destruct (words self) as [|w ws] eqn:Hw; [done|].
  cbn [words set_current_index current_index]. by rewrite Hwrap.
Qed.

Lemma advance_to_next_word_inside (self : App) :
  words self ≠ [] →
  S (current_index self) `mod` length (words self) ≠ 0 →
  advance_to_next_word self
  = show_current_word
      (set_current_index (S (current_index self) `mod` length (words self)) self).
Proof.
  intros Hne Hin. unfold advance_to_next_word.
  destruct (words self) as [|w ws] eqn:Hw; [done|].
  cbn [words set_current_index current_index].
  by apply Nat.eqb_neq in Hin as ->.
Qed.

(** ** What a transition leaves alone *)

(** The deck, the position, the pause flag, the configuration and the random
    generator after [show_current_word]. *)
Lemma show_current_word_ok (self : App) :
  (words self ≠ [] → current_index self < length (words self)) →
  ∃ s, show_current_word self = Ok s
       ∧ words s = words self
       ∧ current_index s = current_index self
       ∧ paused s = paused self
       ∧ rng s = rng self
       ∧ config_data s = config_data self
       ∧ (words self ≠ [] → stage s = StageWord).
Proof.
  intros Hidx. destruct (words self) as [|w ws] eqn:Hw.
  - rewrite show_current_word_empty by done. eexists. split; [done|].
    cbn. rewrite Hw. by repeat split.
  - destruct (lookup_lt_is_Some_2 (words self) (current_index self))
      as [entry Hentry]; [rewrite Hw; by apply Hidx|].
    rewrite (show_current_word_entry _ _ Hentry). eexists. split; [done|].
    destruct (paused self) eqn:Hp; cbn; rewrite ?Hp, ?Hw; by repeat split.
Qed.

Lemma shuffle_from_cursor {A} (i : nat) (x : list A) (g : Random) :
  cursor (shuffle_from i x g).2 = cursor g + i
  ∧ tape (shuffle_from i x g).2 = tape g.
Proof.
  revert x g. induction i as [|i IH]; intros x g; [cbn; split; [lia|done]|].
  cbn [shuffle_from randbelow].
  destruct (IH (swap (S i) (tape g (cursor g) `mod` S (S i)) x)
               (mkRandom (tape g) (S (cursor g)))) as [Hc Ht].
  rewrite Hc, Ht. cbn. split; [lia|done].
Qed.

Lemma rng_shuffle_words (self : App) :
  rng (shuffle_words self) = (shuffle (words self) (rng self)).2.
Proof. unfold shuffle_words. by destruct (shuffle _ _). Qed.

(** [advance_to_next_word] on a deck that is not empty. *)
Lemma advance_to_next_word_ok (self : App) :
  words self ≠ [] →
  ∃ s, advance_to_next_word self = Ok s
       ∧ current_index s = S (current_index self) `mod` length (words self)
       ∧ paused s = paused self
       ∧ (current_index s ≠ 0 → words s = words self ∧ rng s = rng self)
       ∧ (current_index s = 0 →
            words s = (shuffle (words self) (rng self)).1
            ∧ rng s = (shuffle (words self) (rng self)).2).
Proof.
  intros Hne.
  destruct (decide (S (current_index self) `mod` length (words self) = 0))
    as [Hwrap|Hin].
  - rewrite advance_to_next_word_wrap by done.
    destruct (show_current_word_ok (shuffle_words (set_current_index 0 self)))
      as (s & -> & Hw & Hi & Hp & Hg & _ & _).
    { intros _. rewrite words_shuffle_words, shuffle_length.
      destruct (shuffle_words_fields (set_current_index 0 self)) as (-> & _).
      cbn. destruct (words self); [done | cbn; lia]. }
    exists s. split; [done|].
    destruct (shuffle_words_fields (set_current_index 0 self))
      as (Hi' & Hp' & _).
    rewrite Hi, Hi', Hw, Hg, Hp, Hp', words_shuffle_words, rng_shuffle_words, Hwrap.
    cbn. by repeat split.
  - rewrite advance_to_next_word_inside by done.
    destruct (show_current_word_ok
      (set_current_index (S (current_index self) `mod` length (words self)) self))
      as (s & -> & Hw & Hi & Hp & Hg & _ & _).
    { intros _. cbn. apply Nat.mod_upper_bound.
      destruct (words self); [done | cbn; lia]. }
    exists s. split; [done|]. rewrite Hi, Hw, Hg, Hp. cbn.
    by repeat split.
Qed.

(** ** Round robin *)

(** The entries met by [n] calls, from a position with [n] entries left. *)
Lemma visited_segment (n : nat) (self : App) :
  current_index self + n ≤ length (words self) →
  visited n self = Ok (take n (drop (current_index self) (words self))).
Proof.
  revert self. induction n as [|n IH]; intros self Hlen; [done|].
  assert (Hne : words self ≠ []) by (destruct (words self); [cbn in Hlen; lia | done]).
  destruct (list_getitem_lt (words self) (current_index self))
    as (entry & Hentry & Hget); [lia|].
  destruct (advance_to_next_word_ok self Hne) as (s & Hs & Hi & _ & Hin & _).
  cbn [visited]. rewrite Hget, Hs. cbn.
  rewrite (drop_S _ _ _ Hentry). cbn [take].
  destruct (decide (S (current_index self) = length (words self))) as [Hlast|Hmore].
  - assert (n = 0) as -> by lia. cbn. by rewrite take_0.
  - rewrite Nat.mod_small in Hi by lia.
    destruct Hin as [Hw _]; [lia|].
    rewrite IH by (rewrite Hi, Hw; lia). cbn. by rewrite Hi, Hw.
Qed.

Lemma advance_times_inside (k : nat) (self : App) :
  current_index self + k < length (words self) →
  ∃ s, advance_times k self = Ok s
       ∧ current_index s = current_index self + k
       ∧ words s = words self.
Proof.
  revert self. induction k as [|k IH]; intros self Hlen.
  - exists self. cbn. split_and!; [done | lia | done].
  - assert (Hne : words self ≠ []) by (destruct (words self); [cbn in Hlen; lia | done]).
    destruct (advance_to_next_word_ok self Hne) as (s & Hs & Hi & _ & Hin & _).
    rewrite Nat.mod_small in Hi by lia.
    destruct Hin as [Hw _]; [lia|].
    destruct (IH s) as (s' & Hs' & Hi' & Hw'); [rewrite Hi, Hw; lia|].
    exists s'. cbn [advance_times]. rewrite Hs. cbn.
    split_and!; [done | lia | congruence].
Qed.

(** C2: from position 0 of a deck that is not empty, as many calls of
    [advance_to_next_word] as the deck has entries meet the entries of the
    deck one after the other, each exactly once: fewer calls leave the
    position at the number of calls made, with the deck as it was, and the
    last call brings the position back to 0.  Every single call on a deck
    that is not empty sets the position to [(index + 1) mod length]. *)
Theorem advance_round_robin (self : App) :
  words self ≠ [] →
  current_index self = 0 →
  visited (length (words self)) self = Ok (words self)
  ∧ (∀ k, k < length (words self) →
       ∃ s, advance_times k self = Ok s
            ∧ current_index s = k
            ∧ words s = words self)
  ∧ (∃ s, advance_times (length (words self)) self = Ok s
          ∧ current_index s = 0)
  ∧ (∀ a, words a ≠ [] →
       ∃ s, advance_to_next_word a = Ok s
            ∧ current_index s = (current_index a + 1) `mod` length (words a)).
Proof.
  intros Hne H0. split_and!.
  - rewrite visited_segment by lia. rewrite H0, drop_0. by rewrite firstn_all.
  - intros k Hk. destruct (advance_times_inside k self) as (s & ? & ? & ?); [lia|].
    exists s. split_and!; [done | lia | done].
  - destruct (length (words self)) as [|n] eqn:Hn.
    { destruct (words self); [done | discriminate]. }
    destruct (advance_times_inside n self) as (s & Hs & Hi & Hw); [lia|].
    assert (Hne' : words s ≠ []) by congruence.
    destruct (advance_to_next_word_ok s Hne') as (s' & Hs' & Hi' & _).
    exists s'. split.
    + replace (S n) with (n + 1) by lia.
      clear - Hs Hs'. revert self Hs. induction n as [|n IH]; intros self Hs.
      * cbn in Hs. injection Hs as ->. cbn. by rewrite Hs'.
      * cbn in Hs |- *. destruct (advance_to_next_word self); [|done].
        cbn in Hs |- *. by apply IH.
    + rewrite Hi', Hi, Hw, H0, Hn. cbn [plus]. apply Nat.Div0.mod_same.
  - intros a Ha. destruct (advance_to_next_word_ok a Ha) as (s & Hs & Hi & _).
    exists s. split; [done|]. by rewrite Nat.add_1_r.
Qed.

(** C3: on a running engine with a usable deck, pressing pause and then
    pressing it again leaves the engine running at the stage of the bare
    word, whichever stage was showing; the first press keeps the stage. *)
Theorem toggle_pause_twice (self : App) :
  words self ≠ [] →
  current_index self < length (words self) →
  paused self = false →
  ∃ s1 s2, toggle_pause self = Ok s1
           ∧ paused s1 = true
           ∧ stage s1 = stage self
           ∧ toggle_pause s1 = Ok s2
           ∧ paused s2 = false
           ∧ stage s2 = StageWord.
Proof.
  intros Hne Hidx Hrun. unfold toggle_pause at 1. rewrite Hrun.
  eexists. 
  destruct (show_current_word_ok
    (set_host (set_pause_button "일시정지"
       (host (set_paused false (cancel_pending_jobs
          (set_host (set_pause_button "재생" (host (set_paused true self)))
             (set_paused true self))))))
       (set_paused false (cancel_pending_jobs
          (set_host (set_pause_button "재생" (host (set_paused true self)))
             (set_paused true self))))))
    as (s2 & Hs2 & Hw & _ & Hp & _ & _ & Hst); [done|].
  exists s2. split; [done|]. split; [done|]. split; [done|].
  split; [exact Hs2|]. split; [by rewrite Hp | by apply Hst].
Qed.

(** [random.shuffle] settles the deck from its end: the loop at [i] leaves
    what is beyond [i] alone, and the entry that the first draw picks ends up
    last. *)
Lemma swap_lookup_ne {A} (i j k : nat) (x : list A) :
  k ≠ i → k ≠ j → swap i j x !! k = x !! k.
Proof.
  intros Hi Hj. unfold swap.
  destruct (x !! i) as [a|]; [|done]. destruct (x !! j) as [b|]; [|done].
  by rewrite !list_lookup_insert_ne by done.
Qed.

Lemma swap_lookup_l {A} (i j : nat) (x : list A) :
  i < length x → j < length x → swap i j x !! i = x !! j.
Proof.
  intros Hi Hj. unfold swap.
  destruct (lookup_lt_is_Some_2 x i Hi) as [a Ha].
  destruct (lookup_lt_is_Some_2 x j Hj) as [b Hb]. rewrite Ha, Hb.
  destruct (decide (i = j)) as [->|Hne].
  - rewrite list_lookup_insert_eq by (by rewrite length_insert). congruence.
  - rewrite list_lookup_insert_ne by done.
    by rewrite list_lookup_insert_eq.
Qed.

Lemma shuffle_from_keeps {A} (i k : nat) (x : list A) (g : Random) :
  i < k → (shuffle_from i x g).1 !! k = x !! k.
Proof.
  revert x g. induction i as [|i IH]; intros x g Hk; [done|].
  cbn [shuffle_from randbelow]. rewrite IH by lia.
  apply swap_lookup_ne; [lia|].
  pose proof (Nat.mod_upper_bound (tape g (cursor g)) (S (S i))). lia.
Qed.

Lemma shuffle_last {A} (x : list A) (g : Random) :
  x ≠ [] →
  (shuffle x g).1 !! (length x - 1)
  = x !! (tape g (cursor g) `mod` length x).
Proof.
  intros Hne. unfold shuffle.
  destruct (length x) as [|[|n]] eqn:Hlen.
  - by destruct x.
  - by rewrite Nat.mod_1_r.
  - replace (S (S n) - 1) with (S n) by lia.
    cbn [shuffle_from randbelow]. rewrite shuffle_from_keeps by lia.
    apply swap_lookup_l; [lia|].
    pose proof (Nat.mod_upper_bound (tape g (cursor g)) (S (S n))). lia.
Qed.

(** C5: on a deck that is not empty, [advance_to_next_word] shuffles the deck
    when the new position is 0 and only then: at any other new position the
    deck and the random generator are as before, and at 0 the deck is the
    outcome of [random.shuffle], which drew one number for each entry but the
    first and moved the entry picked by its first draw to the end of the
    deck.  Either way the deck keeps its length and its entries, counted
    with their multiplicity. *)
Theorem advance_reshuffles_on_wrap (self : App) :
  words self ≠ [] →
  ∃ s, advance_to_next_word self = Ok s
       ∧ current_index s = S (current_index self) `mod` length (words self)
       ∧ (current_index s ≠ 0 → words s = words self ∧ rng s = rng self)
       ∧ (current_index s = 0 →
            words s = (shuffle (words self) (rng self)).1
            ∧ rng s = (shuffle (words self) (rng self)).2
            ∧ cursor (rng s) = cursor (rng self) + (length (words self) - 1)
            ∧ words s !! (length (words self) - 1)
              = words self
                !! (tape (rng self) (cursor (rng self))
                    `mod` length (words self)))
       ∧ words s ≡ₚ words self
       ∧ length (words s) = length (words self).
Proof.
  intros Hne.
  destruct (advance_to_next_word_ok self Hne) as (s & Hs & Hi & _ & Hin & Hwrap).
  exists s. split; [done|]. split; [done|]. split; [done|].
  assert (Hperm : words s ≡ₚ words self).
  { destruct (decide (current_index s = 0)) as [H0|H0].
    - destruct (Hwrap H0) as [-> _]. apply shuffle_perm.
    - by destruct (Hin H0) as [-> _]. }
  split; [|split; [done | by apply Permutation_length]].
  intros H0. destruct (Hwrap H0) as [Hw Hg]. split_and!; [done..| |].
  - rewrite Hg. unfold shuffle. apply shuffle_from_cursor.
  - rewrite Hw. by apply shuffle_last.
Qed.

(** ** The invariant of the engine *)

Lemma settled_inv (self : App) : settled self → engine_inv self.
Proof.
  intros [Hq Hf Hn Hi]. split; try done.
  - rewrite Hq. cbn. lia.
  - intros x. rewrite Hq. by intros ?%elem_of_nil.
  - intros x. rewrite Hq. by intros ?%elem_of_nil.
Qed.

Lemma inv_tracked (self : App) : engine_inv self → tracked self.
Proof. intros Hinv x Hx. by apply (inv_latest _ Hinv). Qed.

Lemma cancel_pending_jobs_settled (self : App) :
  tracked self → index_ok self → settled (cancel_pending_jobs self).
Proof.
  intros Ht Hi. split.
  - by apply cancel_pending_jobs_clears.
  - cbn. constructor.
  - cbn. constructor.
  - exact Hi.
Qed.

Lemma schedule_inv (delay : Z) (cb : callback) (self : App) :
  settled self → paused self = false → words self ≠ [] → (0 ≤ delay)%Z →
  engine_inv (schedule delay cb self).
Proof.
  intros [Hq Hf Hn Hi] Hp Hw Hd. unfold schedule, after. cbn. rewrite Hq. cbn.
  split; cbn.
  - lia.
  - intros x ->%list_elem_of_singleton. cbn. split; [|done].
    apply elem_of_app. right. by apply list_elem_of_singleton.
  - apply Forall_app. split.
    + eapply Forall_impl; [exact Hf|]. cbn. lia.
    + apply Forall_singleton. lia.
  - apply NoDup_app. split; [done|]. split; [|apply NoDup_singleton].
    intros job Hjob ->%list_elem_of_singleton.
    rewrite Forall_forall in Hf. specialize (Hf _ Hjob). cbn in Hf. lia.
  - by intros x ->%list_elem_of_singleton.
  - exact Hi.
Qed.

Lemma delay_of_nonneg (self : App) (key : string) : (0 ≤ delay_of self key)%Z.
Proof. unfold delay_of. lia. Qed.

Lemma next_id_schedule (delay : Z) (cb : callback) (self : App) :
  next_id (tk (schedule delay cb self)) = S (next_id (tk self)).
Proof. done. Qed.

(** [show_current_word] establishes the invariant from a state whose queue is
    covered by [pending_jobs]. *)
Lemma show_current_word_inv (self : App) :
  tracked self → index_ok self →
  ∃ s, show_current_word self = Ok s
       ∧ engine_inv s
       ∧ next_id (tk self) ≤ next_id (tk s).
Proof.
  intros Ht Hi. pose proof (cancel_pending_jobs_settled self Ht Hi) as Hs.
  destruct (words self) as [|w ws] eqn:Hw.
  - rewrite show_current_word_empty by done. eexists. split; [done|]. split.
    + apply settled_inv. by destruct Hs.
    + cbn. by rewrite cancel_all_next_id.
  - destruct (lookup_lt_is_Some_2 (words self) (current_index self))
      as [entry Hentry]; [apply Hi; by rewrite Hw|].
    rewrite (show_current_word_entry _ _ Hentry). cbn zeta.
    eexists. split; [done|]. destruct (paused self) eqn:Hp.
    + split; [apply settled_inv; by destruct Hs|].
      cbn. by rewrite cancel_all_next_id.
    + split.
      * apply schedule_inv; [by destruct Hs | done | cbn; by rewrite Hw
                            | apply delay_of_nonneg].
      * rewrite next_id_schedule. cbn. rewrite cancel_all_next_id. lia.
Qed.

(** The invariant only reads the queue, [pending_jobs], the pause flag, the
    deck and the position. *)
Lemma engine_inv_ext (a b : App) :
  tk b = tk a → pending_jobs b = pending_jobs a → paused b = paused a →
  words b = words a → current_index b = current_index a →
  engine_inv a → engine_inv b.
Proof.
  intros Ht Hj Hp Hw Hi [H1 H2 H3 H4 H5 H6].
  split; unfold index_ok; rewrite ?Ht, ?Hj, ?Hp, ?Hw, ?Hi; done.
Qed.

Lemma inv_quiet_settled (self : App) :
  engine_inv self → timers (tk self) = [] → settled self.
Proof. intros [H1 H2 H3 H4 H5 H6] Hq. by split. Qed.

Lemma inv_paused_quiet (self : App) :
  engine_inv self → paused self = true → timers (tk self) = [].
Proof.
  intros Hinv Hp. apply elem_of_nil_inv. intros x Hx.
  destruct (inv_running _ Hinv x Hx) as [Hrun _]. congruence.
Qed.

Lemma reveal_current_word_inv (self : App) :
  engine_inv self → timers (tk self) = [] →
  ∃ s, reveal_current_word self = Ok s
       ∧ engine_inv s
       ∧ next_id (tk self) ≤ next_id (tk s).
Proof.
  intros Hinv Hq. destruct (words self) as [|w ws] eqn:Hw.
  - exists self. unfold reveal_current_word. rewrite Hw. by split_and!.
  - destruct (lookup_lt_is_Some_2 (words self) (current_index self))
      as [entry Hentry]; [apply (inv_index _ Hinv); by rewrite Hw|].
    rewrite (reveal_current_word_entry _ _ Hentry). cbn zeta.
    eexists. split; [done|]. destruct (paused self) eqn:Hp.
    + split; [|done]. by eapply engine_inv_ext; [..|exact Hinv].
    + split; [|rewrite next_id_schedule; cbn; lia].
      apply schedule_inv; [|done | cbn; by rewrite Hw | apply delay_of_nonneg].
      destruct (inv_quiet_settled _ Hinv Hq). by split.
Qed.

Lemma advance_to_next_word_inv (self : App) :
  engine_inv self →
  ∃ s, advance_to_next_word self = Ok s
       ∧ engine_inv s
       ∧ next_id (tk self) ≤ next_id (tk s).
Proof.
  intros Hinv. pose proof (inv_tracked _ Hinv) as Ht.
  destruct (decide (words self = [])) as [Hw|Hw].
  { exists self. unfold advance_to_next_word. rewrite Hw. by split_and!. }
  assert (Hlen : 0 < length (words self)).
  { destruct (words self); [done | cbn; lia]. }
  destruct (decide (S (current_index self) `mod` length (words self) = 0))
    as [Hwrap|Hin].
  - rewrite advance_to_next_word_wrap by done.
    destruct (shuffle_words_fields (set_current_index 0 self))
      as (Hi' & _ & Hj' & _ & Htk' & _).
    destruct (show_current_word_inv (shuffle_words (set_current_index 0 self)))
      as (s & Hs & Hinv' & Hid).
    + unfold tracked. by rewrite Htk', Hj'.
    + unfold index_ok. rewrite Hi', words_shuffle_words, shuffle_length. by cbn.
    + exists s. rewrite Htk' in Hid. by split_and!.
  - rewrite advance_to_next_word_inside by done.
    destruct (show_current_word_inv
      (set_current_index (S (current_index self) `mod` length (words self)) self))
      as (s & Hs & Hinv' & Hid).
    + exact Ht.
    + intros _. cbn. apply Nat.mod_upper_bound. lia.
    + exists s. by split_and!.
Qed.

Lemma fire_inv (job : nat) (self : App) :
  engine_inv self →
  ∃ s, fire job self = Ok s
       ∧ engine_inv s
       ∧ next_id (tk self) ≤ next_id (tk s).
Proof.
  intros Hinv. unfold fire.
  destruct (list_find _ _) as [[i x]|] eqn:Hfind; [|exists self; by split_and!].
  apply list_find_Some in Hfind as (Hx & Hjob & _).
  assert (Hq : timers (tk self) = [x]).
  { pose proof (inv_single _ Hinv) as Hone.
    destruct (timers (tk self)) as [|y [|z l]]; [done| |cbn in Hone; lia].
    destruct i; cbn in Hx; [congruence | done]. }
  assert (Hinv' : engine_inv (set_tk (after_cancel job (tk self)) self)).
  { apply settled_inv. destruct Hinv as [H1 H2 H3 H4 H5 H6]. split; try done.
    cbn. rewrite Hq. rewrite filter_cons_False by (cbn; tauto). done. }
  assert (Hq' : timers (tk (set_tk (after_cancel job (tk self)) self)) = []).
  { cbn. rewrite Hq. rewrite filter_cons_False by (cbn; tauto). done. }
  destruct (action x).
  - destruct (reveal_current_word_inv _ Hinv' Hq') as (s & Hs & Hi & Hid).
    exists s. by split_and!.
  - destruct (advance_to_next_word_inv _ Hinv') as (s & Hs & Hi & Hid).
    exists s. by split_and!.
Qed.

Lemma toggle_pause_inv (self : App) :
  engine_inv self →
  ∃ s, toggle_pause self = Ok s
       ∧ engine_inv s
       ∧ next_id (tk self) ≤ next_id (tk s).
Proof.
  intros Hinv. unfold toggle_pause. destruct (paused self) eqn:Hp.
  - edestruct show_current_word_inv as (s & Hs & Hi & Hid);
      [| |exists s; split_and!; [exact Hs | exact Hi | exact Hid]].
    + exact (inv_tracked _ Hinv).
    + exact (inv_index _ Hinv).
  - eexists. split; [done|]. split.
    + apply settled_inv, cancel_pending_jobs_settled.
      * exact (inv_tracked _ Hinv).
      * exact (inv_index _ Hinv).
    + rewrite next_id_cancel_pending_jobs. done.
Qed.

Lemma update_config_inv (config : gmap string pyval) (self : App) :
  engine_inv self →
  ∃ s, update_config config self = Ok s
       ∧ engine_inv s
       ∧ next_id (tk self) ≤ next_id (tk s).
Proof.
  intros Hinv. unfold update_config. cbn. destruct (paused self) eqn:Hp.
  - eexists. split; [done|]. split; [|done].
    by eapply engine_inv_ext; [..|exact Hinv].
  - edestruct show_current_word_inv as (s & Hs & Hi & Hid);
      [| |exists s; split_and!; [exact Hs | exact Hi | exact Hid]].
    + exact (inv_tracked _ Hinv).
    + exact (inv_index _ Hinv).
Qed.

Section Reachable.

Context (strip : string → string) (int_of_str : string → option Z).

Lemma load_words_from_path_inv (path : string)
    (file : option (list (list string))) (self : App) :
  engine_inv self →
  ∃ s b, load_words_from_path strip path file self = Ok (s, b)
         ∧ engine_inv s
         ∧ next_id (tk self) ≤ next_id (tk s).
Proof.
  intros Hinv. unfold load_words_from_path.
  destruct (load_words_from_csv strip path file) as [[|e es]|exc].
  - eexists _, _. split; [done|]. split; [|done].
    by eapply engine_inv_ext; [..|exact Hinv].
  - cbn zeta.
    destruct (shuffle_words_fields (set_words (e :: es) self))
      as (Hi' & Hp' & Hj' & _ & Htk' & _).
    cbn [paused set_current_index]. rewrite Hp'. cbn [paused set_words].
    destruct (paused self) eqn:Hp.
    + eexists _, _. split; [done|]. split; [|cbn; by rewrite Htk'].
      apply settled_inv. destruct Hinv as [H1 H2 H3 H4 H5 H6] eqn:E.
      split; cbn; rewrite ?Htk', ?Hj'; cbn; try done.
      * apply (inv_paused_quiet self); [by split | done].
      * intros _. cbn. rewrite words_shuffle_words, shuffle_length. cbn. lia.
    + edestruct (show_current_word_inv
        (set_current_index 0 (shuffle_words (set_words (e :: es) self))))
        as (s & Hs & Hi & Hid).
      * unfold tracked. cbn. rewrite Htk', Hj'. exact (inv_tracked _ Hinv).
      * intros _. cbn. rewrite words_shuffle_words, shuffle_length. cbn. lia.
      * rewrite Hs. cbn. eexists _, _. split; [done|]. split; [done|].
        cbn in Hid. by rewrite Htk' in Hid.
  - eexists _, _. split; [done|]. split; [|done].
    by eapply engine_inv_ext; [..|exact Hinv].
Qed.

Lemma import_words_inv
    (choice : option (string * option (list (list string)))) (self : App) :
  engine_inv self →
  ∃ s, import_words strip choice self = Ok s
       ∧ engine_inv s
       ∧ next_id (tk self) ≤ next_id (tk s).
Proof.
  intros Hinv. unfold import_words.
  destruct choice as [[path file]|]; [|exists self; by split_and!].
  destruct (load_words_from_path_inv path file self Hinv)
    as (s & b & -> & Hi & Hid). cbn.
  destruct b; eexists; (split; [done|]); (split; [|exact Hid]); [|done].
  by eapply engine_inv_ext; [..|exact Hi].
Qed.

Lemma save_settings_inv (show_text next_text : string) (top : bool) (self : App) :
  engine_inv self →
  ∃ s, save_settings strip int_of_str show_text next_text top self = Ok s
       ∧ engine_inv s
       ∧ next_id (tk self) ≤ next_id (tk s).
Proof.
  intros Hinv. unfold save_settings.
  destruct (_validate_timer strip int_of_str show_text _) as [n1|e1] eqn:H1; cbn.
  - destruct (_validate_timer strip int_of_str next_text _) as [n2|e2] eqn:H2; cbn.
    + edestruct update_config_inv as (s & -> & Hi & Hid); [exact Hinv|]. cbn.
      eexists. split; [done|]. split; [|exact Hid].
      by eapply engine_inv_ext; [..|exact Hi].
    + assert (is_value_error e2 = true) as ->.
      { unfold _validate_timer in H2.
        repeat (case_match; simplify_eq/=; try done). }
      eexists. split; [done|]. split; [|done].
      by eapply engine_inv_ext; [..|exact Hinv].
  - assert (is_value_error e1 = true) as ->.
    { unfold _validate_timer in H1.
      repeat (case_match; simplify_eq/=; try done). }
    eexists. split; [done|]. split; [|done].
    by eapply engine_inv_ext; [..|exact Hinv].
Qed.

Lemma load_config_returns (file : option (result json)) :
  ∃ c, load_config int_of_str file = Ok c.
Proof.
  unfold load_config. destruct file as [[data|e]|]; cbn; eauto.
  destruct (read_config int_of_str data); cbn; eauto.
Qed.

Lemma init_inv (c : option (result json)) (w : option (list (list string)))
    (g : Random) :
  ∃ s, init strip int_of_str c w g = Ok s ∧ engine_inv s.
Proof.
  unfold init. destruct (load_config_returns c) as [config ->]. cbn.
  match goal with
  | |- ∃ s, (let '(entries, h) := ?p in _) = _ ∧ _ => destruct p as [entries h]
  end.
  match goal with
  | |- ∃ s, show_current_word ?a = _ ∧ _ =>
      assert (Hstart : tk a = mkTk [] 0 ∧ current_index a = 0);
      [|destruct Hstart as (Htk & Hidx);
        destruct (show_current_word_inv a) as (s & Hs & Hi & _);
        [| |exists s; by split]]
  end.
  - destruct (shuffle_words_fields
      (mkApp config entries 0 false [] StageWord g h (mkTk [] 0)))
      as (Hi' & _ & _ & _ & Htk' & _).
    destruct (words (shuffle_words _)); cbn; rewrite Htk', Hi'; split; reflexivity.
  - intros x. rewrite Htk. by intros ?%elem_of_nil.
  - intros Hne. rewrite Hidx.
    match goal with
    | |- 0 < length ?l => destruct l; [done | cbn; lia]
    end.
Qed.

Lemma step_inv (ev : event) (self : App) :
  engine_inv self →
  ∃ s, step strip int_of_str ev self = Ok s
       ∧ engine_inv s
       ∧ next_id (tk self) ≤ next_id (tk s).
Proof.
  intros Hinv. destruct ev; cbn.
  - by apply fire_inv.
  - by apply toggle_pause_inv.
  - by apply save_settings_inv.
  - by apply import_words_inv.
Qed.

Lemma reachable_inv (self : App) :
  reachable strip int_of_str self → engine_inv self.
Proof.
  induction 1 as [c w g self Hinit|ev self self' _ IH Hstep].
  - destruct (init_inv c w g) as (s & Hs & Hi). congruence.
  - destruct (step_inv ev self IH) as (s & Hs & Hi & _). congruence.
Qed.

(** From a reachable state no event makes a handler raise. *)
Lemma reachable_step_returns (ev : event) (self : App) :
  reachable strip int_of_str self →
  ∃ s, step strip int_of_str ev self = Ok s.
Proof.
  intros Hr. destruct (step_inv ev self (reachable_inv _ Hr)) as (s & Hs & _).
  by exists s.
Qed.

End Reachable.

(** ** The timer queue over the lifetime of the engine *)

Lemma NoDup_all_equal_length {A} (a : A) (l : list A) :
  NoDup l → (∀ x, x ∈ l → x = a) → length l ≤ 1.
Proof.
  intros Hnd Hall. destruct l as [|x [|y l]]; cbn; [lia | lia |].
  assert (x = a) as -> by (apply Hall; set_solver).
  assert (y = a) as -> by (apply Hall; set_solver).
  apply NoDup_cons in Hnd as [Hnot _]. set_solver.
Qed.

Lemma live_jobs_single (self : App) : engine_inv self → length (live_jobs self) ≤ 1.
Proof.
  intros Hinv. unfold live_jobs.
  pose proof (inv_single _ Hinv) as Hone.
  destruct (timers (tk self)) as [|x [|y l]] eqn:Hq; [| |cbn in Hone; lia].
  - cbn. replace (filter _ _) with (@nil nat); [cbn; lia|].
    symmetry. apply elem_of_nil_inv.
    intros job [Hin _]%list_elem_of_filter. by apply elem_of_nil in Hin.
  - apply (NoDup_all_equal_length (handle x)).
    + apply NoDup_filter, (inv_nodup _ Hinv).
    + intros job [Hin _]%list_elem_of_filter. cbn in Hin.
      by apply list_elem_of_singleton in Hin.
Qed.

Section Lifetime.

Context (strip : string → string) (int_of_str : string → option Z).

(** C1: in every state that the application can reach, Tk's queue holds at
    most one script of the engine, at most one identifier in [pending_jobs]
    is still live, every queued script is listed in [pending_jobs] (so that
    the next cancellation removes it), and nothing is queued while the engine
    is paused.  No script queued before a transition is still queued after a
    transition that queued a new one: it was cancelled, or it is the one that
    ran. *)
Theorem at_most_one_timer (self : App) :
  reachable strip int_of_str self →
  length (timers (tk self)) ≤ 1
  ∧ length (live_jobs self) ≤ 1
  ∧ (∀ x, x ∈ timers (tk self) → handle x ∈ pending_jobs self)
  ∧ (paused self = true → timers (tk self) = [])
  ∧ (∀ ev s x, step strip int_of_str ev self = Ok s →
       x ∈ timers (tk s) → handle x < next_id (tk self) →
       next_id (tk s) = next_id (tk self)).
Proof.
  intros Hr. pose proof (reachable_inv _ _ _ Hr) as Hinv. split_and!.
  - exact (inv_single _ Hinv).
  - by apply live_jobs_single.
  - exact (inv_tracked _ Hinv).
  - by apply inv_paused_quiet.
  - intros ev s x Hstep Hx Hold.
    destruct (step_inv strip int_of_str ev self Hinv) as (s' & Hs' & Hinv' & Hid).
    assert (s' = s) as -> by congruence.
    destruct (inv_latest _ Hinv' x Hx) as [_ Hlast]. lia.
Qed.

Lemma step_empty_deck (ev : event) (self s : App) :
  words self = [] →
  step strip int_of_str ev self = Ok s →
  words s ≠ [] →
  ∃ choice, ev = EvImportWords choice.
Proof.
  intros Hw Hstep Hne.
  assert (Hshow : ∀ a, words a = [] → ∃ b, show_current_word a = Ok b ∧ words b = []).
  { intros a Ha. rewrite (show_current_word_empty a Ha). by eexists. }
  destruct ev as [job| |st nt top|choice]; [| | |by eexists]; exfalso; cbn in Hstep.
  - unfold fire in Hstep. destruct (list_find _ _) as [[i x]|]; [|congruence].
    unfold reveal_current_word, advance_to_next_word in Hstep.
    cbn in Hstep. rewrite Hw in Hstep. destruct (action x); simplify_eq; try done.
  - unfold toggle_pause in Hstep. destruct (paused self).
    + edestruct Hshow as (b & Hb & Hwb); [|rewrite Hb in Hstep]; [done|].
      congruence.
    + simplify_eq; try done.
  - unfold save_settings in Hstep.
    destruct (_validate_timer strip int_of_str st _) as [n1|e1]; cbn in Hstep.
    + destruct (_validate_timer strip int_of_str nt _) as [n2|e2]; cbn in Hstep.
      * unfold update_config in Hstep. cbn in Hstep. destruct (paused self).
        -- cbn in Hstep. unfold mret, result_ret in Hstep. simplify_eq; try done.
        -- edestruct Hshow as (b & Hb & Hwb); [|rewrite Hb in Hstep]; [done|].
           cbn in Hstep. unfold mret, result_ret in Hstep. simplify_eq; try done.
      * destruct (is_value_error e2); simplify_eq; try done.
    + destruct (is_value_error e1); simplify_eq; try done.
Qed.

(** C6: with an empty deck [show_current_word] writes the no-words message
    into the word label, clears the two other labels and queues nothing
    (which identifier comes next is unchanged, and the queue only loses the
    scripts listed in [pending_jobs]); [reveal_current_word] and
    [advance_to_next_word] return with the state untouched.  In a reachable
    state with an empty deck the queue is empty, and only an import of words
    can end this. *)
Theorem empty_deck_is_inert (self : App) :
  words self = [] →
  (∃ s, show_current_word self = Ok s
        ∧ word_label (host s) = "단어 목록이 없습니다."%string
        ∧ reading_label (host s) = ""%string
        ∧ meaning_label (host s) = ""%string
        ∧ next_id (tk s) = next_id (tk self)
        ∧ timers (tk s)
          = filter (λ x, handle x ∉ pending_jobs self) (timers (tk self))
        ∧ words s = [])
  ∧ reveal_current_word self = Ok self
  ∧ advance_to_next_word self = Ok self
  ∧ (reachable strip int_of_str self →
       timers (tk self) = []
       ∧ ∀ ev s, step strip int_of_str ev self = Ok s →
           (words s = [] ∧ timers (tk s) = []) ∨ ∃ choice, ev = EvImportWords choice).
Proof.
  intros Hw. split_and!.
  - rewrite show_current_word_empty by done. eexists. split; [done|].
    cbn. split_and!; try done.
    + apply cancel_all_next_id.
    + apply cancel_all_timers.
  - unfold reveal_current_word. by rewrite Hw.
  - unfold advance_to_next_word. by rewrite Hw.
  - intros Hr. pose proof (reachable_inv _ _ _ Hr) as Hinv.
    assert (Hquiet : ∀ a, engine_inv a → words a = [] → timers (tk a) = []).
    { intros a Ha Hwa. apply elem_of_nil_inv. intros x Hx.
      by destruct (inv_running _ Ha x Hx) as (_ & ? & _). }
    split; [by apply Hquiet|]. intros ev s Hstep.
    destruct (decide (words s = [])) as [Hs|Hs].
    + left. split; [done|]. apply Hquiet; [|done].
      apply (reachable_inv strip int_of_str). by eapply reachable_step.
    + right. by eapply step_empty_deck.
Qed.

End Lifetime.

(** C10: on a running engine with a usable deck, [show_current_word] queues
    [reveal_current_word] and [reveal_current_word] queues
    [advance_to_next_word], each under the next identifier and with the delay
    [max(0, v) * 1000] for the integer [v] that the configuration holds for
    [showMeaningTimer] and for [nextWordTimer]; this delay is never negative,
    whatever the sign of [v]. *)
Theorem scheduled_delay_is_clamped (self : App) (entry : WordEntry) (v1 v2 : Z) :
  words self !! current_index self = Some entry →
  paused self = false →
  config_data self !! "showMeaningTimer"%string = Some (VInt v1) →
  config_data self !! "nextWordTimer"%string = Some (VInt v2) →
  (∃ s, show_current_word self = Ok s
        ∧ timers (tk s)
          = (timers (tk (cancel_pending_jobs self))
             ++ [mkTimer (next_id (tk self)) (Z.max 0 v1 * 1000) reveal_cb])%list)
  ∧ (∃ s, reveal_current_word self = Ok s
          ∧ timers (tk s)
            = (timers (tk self)
               ++ [mkTimer (next_id (tk self)) (Z.max 0 v2 * 1000) advance_cb])%list)
  ∧ (0 ≤ Z.max 0 v1 * 1000)%Z
  ∧ (0 ≤ Z.max 0 v2 * 1000)%Z.
Proof.
  intros Hentry Hrun H1 H2. split_and!; [| |lia|lia].
  - rewrite (show_current_word_entry _ _ Hentry), Hrun. eexists. split; [done|].
    cbn. unfold delay_of. cbn. rewrite H1. cbn. by rewrite cancel_all_next_id.
  - rewrite (reveal_current_word_entry _ _ Hentry), Hrun. eexists. split; [done|].
    cbn. unfold delay_of. cbn. by rewrite H2.
Qed.

(** ** Files: the deck source and the configuration *)

Section Files.

Context (strip : string → string) (int_of_str : string → option Z).

Lemma read_rows_described (fieldnames : list string) (rows : list (list string))
    (entries : list WordEntry) :
  read_rows strip fieldnames rows entries
  = (entries ++ described_entries strip fieldnames rows)%list.
Proof.
  revert entries. induction rows as [|row rows IH]; intros entries.
  - cbn. by rewrite app_nil_r.
  - destruct row as [|cell cells].
    + cbn [read_rows]. rewrite IH. unfold described_entries.
      by rewrite filter_cons_False by (intros ?; done).
    + cbn [read_rows]. unfold described_entries.
      rewrite filter_cons_True by done. cbn [omap list_omap].
      unfold described_entry at 1. cbn zeta.
      destruct (String.eqb_spec
        (strip (get_or_empty (row_dict fieldnames (cell :: cells)) "word")) "")
        as [Hblank|Hword].
      * rewrite decide_True by done. apply IH.
      * rewrite decide_False by done. rewrite IH.
        by rewrite <- app_assoc.
Qed.

Lemma required_fields_bool (fieldnames : list string) :
  forallb (λ f, bool_decide (f ∈ fieldnames)) required_fields = true
  ↔ ∀ f, f ∈ required_fields → f ∈ fieldnames.
Proof.
  rewrite forallb_forall. split.
  - intros H f Hf. eapply bool_decide_eq_true_1, H. by apply list_elem_of_In.
  - intros H f Hf. apply bool_decide_eq_true_2, H. by apply list_elem_of_In.
Qed.

Lemma load_words_from_csv_header (path : string) (fieldnames : list string)
    (rows : list (list string)) :
  load_words_from_csv strip path (Some (fieldnames :: rows))
  = if forallb (λ f, bool_decide (f ∈ fieldnames)) required_fields
    then Ok (read_rows strip fieldnames rows [])
    else Raise (ValueError "CSV 헤더는 word, reading, meaning 을 포함해야 합니다."%string).
Proof. reflexivity. Qed.

(** C8: a source whose header row lacks one of [word], [reading], [meaning]
    is refused with the same [ValueError] whatever rows follow (so is a
    source with no row at all); for a header that has all three, the entries
    returned are those of the interface: the rows with an empty trimmed word
    are left out, and every other row gives one entry of its trimmed word,
    reading and meaning, in the order of the rows. *)
Theorem load_words_from_csv_rows (path : string) (fieldnames : list string)
    (rows : list (list string)) :
  ((∃ f, f ∈ required_fields ∧ f ∉ fieldnames) →
     load_words_from_csv strip path (Some (fieldnames :: rows))
     = Raise (ValueError "CSV 헤더는 word, reading, meaning 을 포함해야 합니다."%string))
  ∧ load_words_from_csv strip path (Some [])
    = Raise (ValueError "CSV 헤더는 word, reading, meaning 을 포함해야 합니다."%string)
  ∧ ((∀ f, f ∈ required_fields → f ∈ fieldnames) →
       load_words_from_csv strip path (Some (fieldnames :: rows))
       = Ok (described_entries strip fieldnames rows)
       ∧ ∀ e, e ∈ described_entries strip fieldnames rows ↔
           ∃ row, row ∈ rows ∧ row ≠ []
             ∧ strip (get_or_empty (row_dict fieldnames row) "word") ≠ ""%string
             ∧ e = mkWordEntry
                     (strip (get_or_empty (row_dict fieldnames row) "word"))
                     (strip (get_or_empty (row_dict fieldnames row) "reading"))
                     (strip (get_or_empty (row_dict fieldnames row) "meaning"))).
Proof.
  split_and!.
  - intros (f & Hreq & Hmiss). rewrite load_words_from_csv_header.
    destruct (forallb _ required_fields) eqn:Hall; [|done].
    destruct Hmiss. by apply (proj1 (required_fields_bool _) Hall).
  - done.
  - intros Hall. rewrite load_words_from_csv_header.
    rewrite (proj2 (required_fields_bool _) Hall). split.
    + by rewrite read_rows_described.
    + intros e. unfold described_entries. rewrite list_elem_of_omap. split.
      * intros (row & [Hne Hin]%list_elem_of_filter & Hrow).
        exists row. unfold described_entry in Hrow. cbn zeta in Hrow.
        case_decide; [done|]. by simplify_eq.
      * intros (row & Hin & Hne & Hword & ->). exists row. split.
        -- by apply list_elem_of_filter.
        -- unfold described_entry. cbn zeta. by rewrite decide_False.
Qed.

(** C4: when the chosen file yields no entry, [load_words_from_path] returns
    [False] after a warning box, and the deck, the position and everything
    else of the engine (pause flag, stage, queue, labels, configuration) are
    as before. *)
Theorem empty_import_changes_nothing (path : string)
    (file : option (list (list string))) (self : App) :
  load_words_from_csv strip path file = Ok [] →
  ∃ s, load_words_from_path strip path file self = Ok (s, false)
       ∧ words s = words self
       ∧ current_index s = current_index self
       ∧ s = set_host (messagebox
               (ShowWarning "단어 불러오기" "CSV 파일에 단어가 없습니다.")
               (host self)) self.
Proof.
  intros Hempty. unfold load_words_from_path. rewrite Hempty.
  eexists. by split_and!.
Qed.


(** [load_config] on a parsed dictionary. *)
Lemma load_config_dict (d : gmap string json) :
  load_config int_of_str (Some (Ok (JDict d)))
  = match int_of_json int_of_str (default (JInt 3) (d !! "showMeaningTimer"%string)),
          int_of_json int_of_str (default (JInt 5) (d !! "nextWordTimer"%string)) with
    | Ok a, Ok b =>
        Ok (config_of a b
              (bool_of_json (default (JBool true) (d !! "alwaysOnTop"%string))))
    | _, _ => Ok DEFAULT_CONFIG
    end.
Proof.
  unfold load_config, read_config.
  change (getitem DEFAULT_CONFIG "showMeaningTimer") with (Ok (VInt 3)).
  change (getitem DEFAULT_CONFIG "nextWordTimer") with (Ok (VInt 5)).
  change (getitem DEFAULT_CONFIG "alwaysOnTop") with (Ok (VBool true)).
  cbn [mbind result_bind json_get json_of_pyval try_except].
  destruct (int_of_json int_of_str (default (JInt 3) _)) as [a|e1]; [|done].
  cbn [mbind result_bind json_get json_of_pyval try_except].
  destruct (int_of_json int_of_str (default (JInt 5) _)) as [b|e2]; done.
Qed.

Lemma load_config_not_dict (data : json) :
  (∀ d, data ≠ JDict d) →
  load_config int_of_str (Some (Ok data)) = Ok DEFAULT_CONFIG.
Proof.
  intros Hnot. unfold load_config, read_config.
  change (getitem DEFAULT_CONFIG "showMeaningTimer") with (Ok (VInt 3)).
  destruct data; try done. by destruct (Hnot d).
Qed.

(** The two outcomes of [load_config] on a parsed dictionary. *)
Lemma load_config_dict_cases (d : gmap string json) :
  ∃ c, load_config int_of_str (Some (Ok (JDict d))) = Ok c
       ∧ ((∃ a b,
             int_of_json int_of_str
               (default (JInt 3) (d !! "showMeaningTimer"%string)) = Ok a
             ∧ int_of_json int_of_str
                 (default (JInt 5) (d !! "nextWordTimer"%string)) = Ok b
             ∧ c = config_of a b
                     (bool_of_json (default (JBool true) (d !! "alwaysOnTop"%string))))
          ∨ ((raises (int_of_json int_of_str
                        (default (JInt 3) (d !! "showMeaningTimer"%string)))
              ∨ raises (int_of_json int_of_str
                          (default (JInt 5) (d !! "nextWordTimer"%string))))
             ∧ c = DEFAULT_CONFIG)).
Proof.
  rewrite load_config_dict.
  destruct (int_of_json int_of_str (default (JInt 3) _)) as [a|e1] eqn:H1.
  - destruct (int_of_json int_of_str (default (JInt 5) _)) as [b|e2] eqn:H2.
    + eexists. split; [done|]. left. by exists a, b.
    + eexists. split; [done|]. right. split; [|done]. right. by exists e2.
  - eexists. split; [done|]. right. split; [|done]. left. by exists e1.
Qed.

(** C9: whatever is stored, [load_config] returns, and what it
    returns has the three keys, with integers for the two timers and a
    boolean for [alwaysOnTop].  It is the default configuration as a whole
    when the file is missing, when reading or parsing it raises, when the
    parsed value is not a dictionary, and when the dictionary holds for one
    of the two timers a value on which [int] raises.  In every other case
    nothing reverts: each timer is [int] of its stored value (or its default
    when the key is missing) and [alwaysOnTop] is the truth value of what is
    stored (or [True] when the key is missing), whatever the type of the
    stored values. *)
Theorem load_config_total (file : option (result json)) :
  ∃ c, load_config int_of_str file = Ok c
       ∧ (∃ a b t, c = config_of a b t)
       ∧ (file = None → c = DEFAULT_CONFIG)
       ∧ (∀ e, file = Some (Raise e) → c = DEFAULT_CONFIG)
       ∧ (∀ data, file = Some (Ok data) → (∀ d, data ≠ JDict d) →
            c = DEFAULT_CONFIG)
       ∧ (∀ d key v, file = Some (Ok (JDict d)) →
            key ∈ ["showMeaningTimer"; "nextWordTimer"]%string →
            d !! key = Some v →
            raises (int_of_json int_of_str v) →
            c = DEFAULT_CONFIG)
       ∧ (∀ d a b, file = Some (Ok (JDict d)) →
            int_of_json int_of_str
              (default (JInt 3) (d !! "showMeaningTimer"%string)) = Ok a →
            int_of_json int_of_str
              (default (JInt 5) (d !! "nextWordTimer"%string)) = Ok b →
            c = config_of a b
                  (bool_of_json (default (JBool true) (d !! "alwaysOnTop"%string)))).
Proof.
  destruct file as [[data|e]|].
  - assert (Hcase : (∃ d, data = JDict d) ∨ (∀ d, data ≠ JDict d)).
    { destruct data; try (by right); left; by eexists. }
    destruct Hcase as [[d ->]|Hnot].
    + destruct (load_config_dict_cases d)
        as (c & Hc & [(a & b & H1 & H2 & Hconv)|(Hraise & Hdef)]).
      * exists c. split; [exact Hc|]. split; [by eexists _, _, _|].
        split_and!; try done.
        -- intros data [= <-] Hnot. by destruct (Hnot d).
        -- intros d' key v [= <-] Hkey Hv [e He].
           apply elem_of_cons in Hkey as [->|Hkey].
           { rewrite Hv in H1. cbn in H1. congruence. }
           apply list_elem_of_singleton in Hkey as ->.
           rewrite Hv in H2. cbn in H2. congruence.
        -- intros d' a' b' [= <-] H1' H2'. congruence.
      * exists c. split; [exact Hc|].
        split; [exists 3%Z, 5%Z, true; by rewrite Hdef|].
        split_and!; try done.
        intros d' a' b' [= <-] H1' H2'.
        destruct Hraise as [[e He]|[e He]]; congruence.
    + rewrite load_config_not_dict by done.
      exists DEFAULT_CONFIG. split; [done|].
      split; [by exists 3%Z, 5%Z, true|]. split_and!; try done.
      intros d a b [= ->]. by destruct (Hnot d).
  - exists DEFAULT_CONFIG. split; [done|].
    split; [by exists 3%Z, 5%Z, true|]. by split_and!.
  - exists DEFAULT_CONFIG. split; [done|].
    split; [by exists 3%Z, 5%Z, true|]. by split_and!.
Qed.

Lemma config_of_lookup (a b : Z) (t : bool) (key : string) :
  config_of a b t !! key
  = if decide (key = "showMeaningTimer"%string) then Some (VInt a)
    else if decide (key = "nextWordTimer"%string) then Some (VInt b)
    else if decide (key = "alwaysOnTop"%string) then Some (VBool t)
    else None.
Proof.
  unfold config_of. repeat case_decide; by simplify_map_eq.
Qed.


End Files.

(** * The script on the sample inputs *)

Example sample_app_starts :
  init strip_ascii int_of_decimal None sample_csv sample_rng = Ok sample_app.
Proof. vm_compute. reflexivity. Qed.

Example sample_blank_starts :
  init strip_ascii int_of_decimal None None sample_rng = Ok sample_blank.
Proof. vm_compute. reflexivity. Qed.

Example sample_csv_entries :
  load_words_from_csv strip_ascii "words.csv" sample_csv
  = Ok [mkWordEntry "猫" "ねこ" "cat"; mkWordEntry "犬" "いぬ" "";
        mkWordEntry "鳥" "とり" "bird"]%string.
Proof. vm_compute. reflexivity. Qed.

(** A negative timer in the stored configuration is kept as it is. *)
Example negative_stored_loads :
  load_config int_of_decimal negative_stored = Ok (config_of (-4) 5 true).
Proof. vm_compute. reflexivity. Qed.

(** [int] accepts a numeric text and truncates a float; [bool] accepts any
    value.  None of these sends the configuration back to the defaults. *)
Example convertible_values_load :
  load_config int_of_decimal
    (Some (Ok (JDict (<["showMeaningTimer" := JStr "7"]>
                       (<["nextWordTimer" := JFloat (FFinite 11 (-2))]>
                         (<["alwaysOnTop" := JStr "no"]> ∅))))))%string
  = Ok (config_of 7 2 true).
Proof. vm_compute. reflexivity. Qed.

(** After the first timer ran, [pending_jobs] lists its spent identifier next
    to the one of the script now queued. *)
Example spent_job_stays_listed :
  ∃ s, step strip_ascii int_of_decimal (EvTimer 0) sample_app = Ok s
       ∧ pending_jobs s = [0; 1]
       ∧ timers (tk s) = [mkTimer 1 5000 advance_cb]
       ∧ live_jobs s = [1].
Proof. eexists. vm_compute. by split_and!. Qed.

Example path_name_samples :
  path_name "/home/user/lists/n5.csv" = "n5.csv"
  ∧ path_name "n5.csv" = "n5.csv"
  ∧ path_name "lists//n5.csv/" = "n5.csv"
  ∧ path_name "/" = "".
Proof. vm_compute. by split_and!. Qed.

Example validate_timer_samples :
  _validate_timer strip_ascii int_of_decimal " 12 " "t" = Ok 12%Z
  ∧ _validate_timer strip_ascii int_of_decimal "-1" "t"
    = Raise (ValueError "t은(는) 0 이상이어야 합니다.")
  ∧ _validate_timer strip_ascii int_of_decimal "abc" "t"
    = Raise (ValueError "t은(는) 정수여야 합니다.")
  ∧ _validate_timer strip_ascii int_of_decimal "  " "t"
    = Raise (ValueError "t 값을 입력하세요.").
Proof. vm_compute. by split_and!. Qed.

(** The start-up state on the sample word list is reachable, and has one
    script queued. *)
Lemma at_most_one_timer_witness :
  reachable strip_ascii int_of_decimal sample_app
  ∧ length (timers (tk sample_app)) ≤ 1
  ∧ length (live_jobs sample_app) ≤ 1.
Proof.
  assert (Hr : reachable strip_ascii int_of_decimal sample_app).
  { apply (reachable_init _ _ None sample_csv sample_rng).
    vm_compute. reflexivity. }
  split; [exact Hr|].
  destruct (at_most_one_timer strip_ascii int_of_decimal sample_app Hr)
    as (Hone & Hlive & _).
  split; [exact Hone | exact Hlive].
Defined.

(** Three calls on the sample deck of three entries meet the three entries in
    the order of the deck. *)
Lemma advance_round_robin_witness :
  words sample_app ≠ []
  ∧ current_index sample_app = 0
  ∧ visited 3 sample_app = Ok (words sample_app)
  ∧ ∃ s, advance_times 3 sample_app = Ok s ∧ current_index s = 0.
Proof.
  split; [discriminate|]. split; [reflexivity|].
  destruct (advance_round_robin sample_app) as (Hvisit & _ & Hback & _);
    [discriminate | reflexivity |].
  split; [exact Hvisit | exact Hback].
Defined.

(** Pausing the sample application and resuming it. *)
Lemma toggle_pause_twice_witness :
  words sample_app ≠ []
  ∧ current_index sample_app < length (words sample_app)
  ∧ paused sample_app = false
  ∧ ∃ s1 s2, toggle_pause sample_app = Ok s1
             ∧ paused s1 = true
             ∧ stage s1 = stage sample_app
             ∧ toggle_pause s1 = Ok s2
             ∧ paused s2 = false
             ∧ stage s2 = StageWord.
Proof.
  split; [discriminate|]. split; [cbn; lia|]. split; [reflexivity|].
  apply (toggle_pause_twice sample_app); [discriminate | cbn; lia | reflexivity].
Defined.

(** Importing a file that has only the header row. *)
Lemma empty_import_changes_nothing_witness :
  load_words_from_csv strip_ascii "empty.csv" header_only_csv = Ok []
  ∧ ∃ s, load_words_from_path strip_ascii "empty.csv" header_only_csv sample_app
         = Ok (s, false)
         ∧ words s = words sample_app
         ∧ current_index s = current_index sample_app
         ∧ s = set_host (messagebox
                 (ShowWarning "단어 불러오기" "CSV 파일에 단어가 없습니다.")
                 (host sample_app)) sample_app.
Proof.
  split; [vm_compute; reflexivity|].
  apply (empty_import_changes_nothing strip_ascii "empty.csv" header_only_csv
           sample_app).
  vm_compute. reflexivity.
Defined.

(** The third call on the sample deck brings the position back to 0 and
    reorders the deck: the first draw, 17 mod 3 = 2, keeps the last entry in
    place, and the second, 24 mod 2 = 0, exchanges the two others. *)
Lemma advance_reshuffles_on_wrap_witness :
  ∃ s2 s3,
    advance_times 2 sample_app = Ok s2
    ∧ words s2 = words sample_app
    ∧ current_index s2 = 2
    ∧ words s2 ≠ []
    ∧ advance_to_next_word s2 = Ok s3
    ∧ current_index s3 = 0
    ∧ words s3 = [mkWordEntry "鳥" "とり" "bird"; mkWordEntry "犬" "いぬ" "";
                  mkWordEntry "猫" "ねこ" "cat"]%string
    ∧ words s3 ≠ words s2
    ∧ words s3 ≡ₚ words s2
    ∧ cursor (rng s3) = cursor (rng s2) + 2.
Proof.
  destruct (advance_times 2 sample_app) as [s2|e] eqn:H2;
    [|vm_compute in H2; discriminate].
  assert (Hw2 : words s2 = words sample_app)
    by (vm_compute in H2; by injection H2 as <-).
  assert (Hi2 : current_index s2 = 2)
    by (vm_compute in H2; by injection H2 as <-).
  assert (Hg2 : rng s2 = rng sample_app)
    by (vm_compute in H2; by injection H2 as <-).
  assert (Hne : words s2 ≠ []) by (rewrite Hw2; discriminate).
  destruct (advance_reshuffles_on_wrap s2 Hne)
    as (s3 & Hs3 & Hi3 & _ & Hwrap & Hperm & _).
  rewrite Hi2, Hw2 in Hi3. cbn in Hi3.
  destruct (Hwrap Hi3) as (Hw3 & _ & Hc3 & _).
  assert (Hsh : (shuffle (words sample_app) (rng sample_app)).1
                = [mkWordEntry "鳥" "とり" "bird"; mkWordEntry "犬" "いぬ" "";
                   mkWordEntry "猫" "ねこ" "cat"]%string)
    by (vm_compute; reflexivity).
  rewrite Hw2, Hg2, Hsh in Hw3.
  exists s2, s3. split; [reflexivity|]. split; [exact Hw2|].
  split; [exact Hi2|]. split; [exact Hne|]. split; [exact Hs3|].
  split; [exact Hi3|]. split; [exact Hw3|].
  split; [rewrite Hw3, Hw2; discriminate|]. split; [exact Hperm|].
  rewrite Hc3, Hw2. reflexivity.
Defined.

(** The application without a word list. *)
Lemma empty_deck_is_inert_witness :
  words sample_blank = []
  ∧ reveal_current_word sample_blank = Ok sample_blank
  ∧ advance_to_next_word sample_blank = Ok sample_blank.
Proof.
  split; [reflexivity|].
  destruct (empty_deck_is_inert strip_ascii int_of_decimal sample_blank)
    as (_ & Hreveal & Hadvance & _); [reflexivity|].
  split; [exact Hreveal | exact Hadvance].
Defined.

(** With -4 stored for [showMeaningTimer] the reveal is queued with no delay. *)
Lemma scheduled_delay_is_clamped_witness :
  words sample_negative !! current_index sample_negative
  = Some (mkWordEntry "犬" "いぬ" "")
  ∧ paused sample_negative = false
  ∧ config_data sample_negative !! "showMeaningTimer"%string = Some (VInt (-4))
  ∧ config_data sample_negative !! "nextWordTimer"%string = Some (VInt 5)
  ∧ (∃ s, show_current_word sample_negative = Ok s
          ∧ timers (tk s)
            = (timers (tk (cancel_pending_jobs sample_negative))
               ++ [mkTimer (next_id (tk sample_negative)) (Z.max 0 (-4) * 1000)
                     reveal_cb])%list)
  ∧ (0 ≤ Z.max 0 (-4) * 1000)%Z.
Proof.
  split; [reflexivity|]. split; [reflexivity|].
  split; [vm_compute; reflexivity|]. split; [vm_compute; reflexivity|].
  destruct (scheduled_delay_is_clamped sample_negative
              (mkWordEntry "犬" "いぬ" "") (-4) 5) as (Hshow & _ & Hpos & _);
    [reflexivity | reflexivity | vm_compute; reflexivity
    | vm_compute; reflexivity |].
  split; [exact Hshow | exact Hpos].
Defined.

(** The sample word list is read as described, and a header without
    [meaning] is refused. *)
Lemma load_words_from_csv_rows_witness :
  load_words_from_csv strip_ascii "words.csv" sample_csv
  = Ok [mkWordEntry "猫" "ねこ" "cat"; mkWordEntry "犬" "いぬ" "";
        mkWordEntry "鳥" "とり" "bird"]%string
  ∧ load_words_from_csv strip_ascii "words.csv"
      (Some [["word"; "reading"]; ["猫"; "ねこ"]]%string)
    = Raise (ValueError "CSV 헤더는 word, reading, meaning 을 포함해야 합니다."%string).
Proof.
  split.
  - destruct (load_words_from_csv_rows strip_ascii "words.csv"
                ["word"; "reading"; "meaning"]%string
                [["猫"; "ねこ"; "cat"]; []; ["  "; "x"; "y"]; [" 犬 "; "いぬ"];
                 ["鳥"; "とり"; "bird"; "extra"]]%string) as (_ & _ & Hrows).
    destruct Hrows as [Hload _].
    + intros f Hf. unfold required_fields in Hf. set_solver.
    + unfold sample_csv. rewrite Hload. vm_compute. reflexivity.
  - destruct (load_words_from_csv_rows strip_ascii "words.csv"
                ["word"; "reading"]%string [["猫"; "ねこ"]]%string)
      as (Hrefused & _).
    apply Hrefused. exists "meaning"%string. split.
    + unfold required_fields. set_solver.
    + intros Hin. by repeat (apply elem_of_cons in Hin as [?|Hin]; [done|]);
        apply elem_of_nil in Hin.
Defined.

(** A stored [null] for one timer sends all three fields back to the
    defaults, the other timer included; a numeric text for a timer and a
    [null] for [alwaysOnTop] are converted and kept. *)
Lemma load_config_total_witness :
  raises (int_of_json int_of_decimal JNull)
  ∧ load_config int_of_decimal
      (Some (Ok (JDict (<["showMeaningTimer"%string := JNull]>
                         (<["nextWordTimer"%string := JInt 9]> ∅)))))
    = Ok DEFAULT_CONFIG
  ∧ load_config int_of_decimal
      (Some (Ok (JDict (<["showMeaningTimer"%string := JStr "7"]>
                         (<["alwaysOnTop"%string := JNull]> ∅)))))
    = Ok (config_of 7 5 false).
Proof.
  split; [by eexists|]. split.
  - destruct (load_config_total int_of_decimal
      (Some (Ok (JDict (<["showMeaningTimer"%string := JNull]>
                         (<["nextWordTimer"%string := JInt 9]> ∅))))))
      as (c & Hc & _ & _ & _ & _ & Hbad & _).
    rewrite Hc. f_equal.
    eapply (Hbad _ "showMeaningTimer"%string JNull).
    + reflexivity.
    + set_solver.
    + vm_compute. reflexivity.
    + by eexists.
  - destruct (load_config_total int_of_decimal
      (Some (Ok (JDict (<["showMeaningTimer"%string := JStr "7"]>
                         (<["alwaysOnTop"%string := JNull]> ∅))))))
      as (c & Hc & _ & _ & _ & _ & _ & Hconv).
    rewrite Hc. f_equal.
    rewrite (Hconv _ 7%Z 5%Z eq_refl);
      [vm_compute; reflexivity | vm_compute; reflexivity..].
Defined.

(** With [null] stored for [alwaysOnTop] the stored timer 9 is kept and only
    the flag differs from the default; a timer stored as the text 7 is read
    as 7.  Neither file gives the default configuration. *)
Lemma load_config_fallback_counterexample :
  load_config int_of_decimal
    (Some (Ok (JDict (<["alwaysOnTop"%string := JNull]>
                       (<["showMeaningTimer"%string := JInt 9]> ∅)))))
  = Ok (config_of 9 5 false)
  ∧ config_of 9 5 false ≠ DEFAULT_CONFIG
  ∧ load_config int_of_decimal
      (Some (Ok (JDict (<["showMeaningTimer"%string := JStr "7"]> ∅))))
    = Ok (config_of 7 5 true)
  ∧ config_of 7 5 true ≠ DEFAULT_CONFIG.
Proof.
  split; [vm_compute; reflexivity|]. split.
  { intros H. apply (f_equal (λ c, c !! "showMeaningTimer"%string)) in H.
    vm_compute in H. discriminate. }
  split; [vm_compute; reflexivity|].
  intros H. apply (f_equal (λ c, c !! "showMeaningTimer"%string)) in H.
  vm_compute in H. discriminate.
Qed.



(** * Further properties of the engine *)

(** ** The display of a running engine *)

Lemma display_ok_ext (a b : App) :
  paused b = paused a → words b = words a →
  current_index b = current_index a → stage b = stage a →
  word_label (host b) = word_label (host a) →
  reading_label (host b) = reading_label (host a) →
  meaning_label (host b) = meaning_label (host a) →
  timers (tk b) = timers (tk a) → config_data b = config_data a →
  display_ok a → display_ok b.
Proof.
  intros Hp Hw Hi Hs Hl1 Hl2 Hl3 Ht Hc. unfold display_ok, queued_for, delay_of.
  by rewrite Hp, Hw, Hi, Hs, Hl1, Hl2, Hl3, Ht, Hc.
Qed.

Lemma display_ok_paused (self : App) : paused self = true → display_ok self.
Proof. intros Hp Hrun. congruence. Qed.

Lemma display_ok_empty (self : App) : words self = [] → display_ok self.
Proof. intros Hw _ entry. by rewrite Hw. Qed.

(** [show_current_word] brings the display in line with the current entry. *)
Lemma show_current_word_display (self : App) :
  tracked self → index_ok self →
  ∃ s, show_current_word self = Ok s
       ∧ display_ok s
       ∧ config_data s = config_data self
       ∧ words s = words self.
Proof.
  intros Ht Hi. pose proof (cancel_pending_jobs_clears self Ht) as Hclear.
  destruct (words self) as [|w ws] eqn:Hw.
  - rewrite show_current_word_empty by done. eexists. split; [done|].
    split; [by apply display_ok_empty|]. by cbn.
  - destruct (lookup_lt_is_Some_2 (words self) (current_index self))
      as [entry Hentry]; [apply Hi; by rewrite Hw|].
    rewrite (show_current_word_entry _ _ Hentry). cbn zeta.
    eexists. split; [done|]. destruct (paused self) eqn:Hp.
    + split; [by apply display_ok_paused|]. by cbn.
    + split; [|by cbn]. intros _ entry'. cbn. rewrite Hentry. intros [= <-].
      split; [done|]. split; [done|]. split; [done|].
      eexists. unfold schedule, after. cbn.
      change (foldl (λ t job, after_cancel job t) (tk self) (pending_jobs self))
        with (tk (cancel_pending_jobs self)).
      rewrite Hclear. cbn. by split_and!.
Qed.

Lemma reveal_current_word_display (self : App) :
  index_ok self → timers (tk self) = [] →
  (paused self = false → ∀ entry,
     words self !! current_index self = Some entry →
     word_label (host self) = word entry) →
  ∃ s, reveal_current_word self = Ok s
       ∧ display_ok s
       ∧ config_data s = config_data self
       ∧ words s = words self.
Proof.
  intros Hi Hq Hlabel. destruct (words self) as [|w ws] eqn:Hw.
  - exists self. unfold reveal_current_word. rewrite Hw.
    split; [done|]. split; [by apply display_ok_empty|]. done.
  - destruct (lookup_lt_is_Some_2 (words self) (current_index self))
      as [entry Hentry]; [apply Hi; by rewrite Hw|].
    rewrite (reveal_current_word_entry _ _ Hentry). cbn zeta.
    eexists. split; [done|]. destruct (paused self) eqn:Hp.
    + split; [by apply display_ok_paused|]. by cbn.
    + split; [|by cbn]. intros _ entry'. cbn. rewrite Hentry. intros [= <-].
      split; [apply Hlabel; [done | by rewrite <- Hw]|].
      split; [done|]. split; [done|].
      eexists. unfold schedule, after. cbn. rewrite Hq. cbn. by split_and!.
Qed.

Lemma omap_length_le {A B} (f : A → option B) (l : list A) :
  length (omap f l) ≤ length l.
Proof.
  induction l as [|x l IH]; [done|]. cbn. destruct (f x); cbn; lia.
Qed.

Lemma app_inv_intro (self s : App) :
  display_ok s → config_data s = config_data self → words s ≡ₚ words self →
  app_inv self → app_inv s.
Proof.
  intros Hd Hc Hw [_ Hconf Hwords]. split; [done| |].
  - unfold config_ok. by rewrite Hc.
  - unfold words_ok. by rewrite Hw.
Qed.

Lemma advance_to_next_word_display (self : App) :
  tracked self →
  ∃ s, advance_to_next_word self = Ok s
       ∧ display_ok s
       ∧ config_data s = config_data self
       ∧ words s ≡ₚ words self.
Proof.
  intros Ht. destruct (decide (words self = [])) as [Hw|Hw].
  { exists self. unfold advance_to_next_word. rewrite Hw.
    split; [done|]. split; [by apply display_ok_empty|]. done. }
  assert (Hlen : 0 < length (words self)).
  { destruct (words self); [done | cbn; lia]. }
  destruct (decide (S (current_index self) `mod` length (words self) = 0))
    as [Hwrap|Hin].
  - rewrite advance_to_next_word_wrap by done.
    destruct (shuffle_words_fields (set_current_index 0 self))
      as (Hi' & _ & Hj' & _ & Htk' & _ & Hc').
    destruct (show_current_word_display (shuffle_words (set_current_index 0 self)))
      as (s & Hs & Hd & Hc & Hws).
    + unfold tracked. by rewrite Htk', Hj'.
    + unfold index_ok. rewrite Hi', words_shuffle_words, shuffle_length. by cbn.
    + exists s. split; [done|]. split; [done|]. split; [by rewrite Hc, Hc'|].
      rewrite Hws, words_shuffle_words. apply shuffle_perm.
  - rewrite advance_to_next_word_inside by done.
    destruct (show_current_word_display
      (set_current_index (S (current_index self) `mod` length (words self)) self))
      as (s & Hs & Hd & Hc & Hws).
    + exact Ht.
    + intros _. cbn. apply Nat.mod_upper_bound. lia.
    + exists s. split; [done|]. split; [done|]. split; [done|]. by rewrite Hws.
Qed.

Lemma fire_app_inv (job : nat) (self : App) :
  engine_inv self → app_inv self →
  ∃ s, fire job self = Ok s ∧ app_inv s.
Proof.
  intros Hinv Happ. unfold fire.
  destruct (list_find _ _) as [[i x]|] eqn:Hfind; [|by exists self].
  apply list_find_Some in Hfind as (Hx & Hjob & _).
  assert (Hq : timers (tk self) = [x]).
  { pose proof (inv_single _ Hinv) as Hone.
    destruct (timers (tk self)) as [|y [|z l]]; [done| |cbn in Hone; lia].
    destruct i; cbn in Hx; [congruence | done]. }
  assert (Hq' : timers (tk (set_tk (after_cancel job (tk self)) self)) = []).
  { cbn. rewrite Hq. rewrite filter_cons_False by (cbn; tauto). done. }
  destruct (action x).
  - destruct (reveal_current_word_display
                (set_tk (after_cancel job (tk self)) self))
      as (s & Hs & Hd & Hc & Hw).
    + exact (inv_index _ Hinv).
    + exact Hq'.
    + intros Hrun entry Hentry. by apply (app_display _ Happ).
    + exists s. split; [done|]. apply (app_inv_intro self); [done..| |done].
      by rewrite Hw.
  - destruct (advance_to_next_word_display
                (set_tk (after_cancel job (tk self)) self))
      as (s & Hs & Hd & Hc & Hw).
    + intros y. rewrite Hq'. by intros ?%elem_of_nil.
    + exists s. split; [done|]. by apply (app_inv_intro self).
Qed.

Lemma toggle_pause_app_inv (self : App) :
  engine_inv self → app_inv self →
  ∃ s, toggle_pause self = Ok s ∧ app_inv s.
Proof.
  intros Hinv Happ. unfold toggle_pause. destruct (paused self) eqn:Hp.
  - edestruct show_current_word_display as (s & Hs & Hd & Hc & Hw);
      [| |exists s; split; [exact Hs|]].
    + exact (inv_tracked _ Hinv).
    + exact (inv_index _ Hinv).
    + apply (app_inv_intro self); [done | done | by rewrite Hw | done].
  - eexists. split; [done|]. apply (app_inv_intro self); [|done..].
    by apply display_ok_paused.
Qed.

Lemma update_config_app_inv (config : gmap string pyval) (self : App) :
  engine_inv self → app_inv self →
  (∃ a b t, config = config_of a b t) →
  ∃ s, update_config config self = Ok s
       ∧ app_inv s
       ∧ config_data s = config.
Proof.
  intros Hinv Happ Hconf. unfold update_config. cbn.
  destruct (paused self) eqn:Hp.
  - eexists. split; [done|]. split; [|done]. split.
    + by apply display_ok_paused.
    + exact Hconf.
    + exact (app_words _ Happ).
  - edestruct show_current_word_display as (s & Hs & Hd & Hc & Hw);
      [| |exists s; split; [exact Hs|]].
    + exact (inv_tracked _ Hinv).
    + exact (inv_index _ Hinv).
    + split; [|exact Hc]. split; [done| |].
      * unfold config_ok. by rewrite Hc.
      * unfold words_ok. rewrite Hw. exact (app_words _ Happ).
Qed.

(** What [show_current_word] leaves alone, whenever it returns. *)
Lemma show_current_word_frame (self s : App) :
  show_current_word self = Ok s →
  words s = words self
  ∧ current_index s = current_index self
  ∧ paused s = paused self
  ∧ rng s = rng self
  ∧ config_data s = config_data self
  ∧ pause_button (host s) = pause_button (host self)
  ∧ topmost (host s) = topmost (host self)
  ∧ dialogs (host s) = dialogs (host self)
  ∧ config_file (host s) = config_file (host self).
Proof.
  unfold show_current_word. cbn.
  destruct (words self) as [|w ws] eqn:Hw.
  - intros [= <-]. cbn. by rewrite Hw.
  - destruct (list_getitem (w :: ws) (current_index self)) as [entry|e]; [|done].
    cbn. destruct (paused self) eqn:Hp; intros [= <-]; cbn; by rewrite ?Hw, ?Hp.
Qed.

Lemma show_current_word_stage (self s : App) :
  show_current_word self = Ok s → words self ≠ [] → stage s = StageWord.
Proof.
  unfold show_current_word. cbn.
  destruct (words self) as [|w ws] eqn:Hw; [done|]. intros Hs _.
  destruct (list_getitem (w :: ws) (current_index self)) as [entry|e]; [|done].
  cbn in Hs. by destruct (paused self); injection Hs as <-.
Qed.

Lemma show_current_word_blank (self s : App) :
  show_current_word self = Ok s → words self = [] →
  word_label (host s) = "단어 목록이 없습니다."%string
  ∧ reading_label (host s) = ""%string
  ∧ meaning_label (host s) = ""%string
  ∧ stage s = stage self.
Proof.
  intros Hs Hw. rewrite show_current_word_empty in Hs by done.
  by injection Hs as <-.
Qed.

(** The single queued script comes due. *)
Lemma fire_single (t : timer) (self : App) :
  timers (tk self) = [t] →
  fire (handle t) self
  = match action t with
    | reveal_cb => reveal_current_word
    | advance_cb => advance_to_next_word
    end (set_tk (mkTk [] (next_id (tk self))) self).
Proof.
  intros Hq. unfold fire, after_cancel. rewrite Hq. cbn.
  rewrite decide_True by done. rewrite decide_False by tauto.
  by destruct (action t).
Qed.

(** Nothing queued: a timer event finds no script to run. *)
Lemma fire_idle (job : nat) (self : App) :
  timers (tk self) = [] → fire job self = Ok self.
Proof. intros Hq. unfold fire. by rewrite Hq. Qed.

Lemma advance_to_next_word_frame (self s : App) :
  advance_to_next_word self = Ok s →
  words s ≡ₚ words self
  ∧ paused s = paused self
  ∧ config_data s = config_data self
  ∧ topmost (host s) = topmost (host self)
  ∧ (words self ≠ [] → stage s = StageWord).
Proof.
  unfold advance_to_next_word.
  destruct (words self) as [|w ws] eqn:Hw.
  { intros [= <-]. by rewrite Hw. }
  cbn zeta.
  set (x := set_current_index (S (current_index self) `mod` length (w :: ws)) self).
  set (y := if (current_index x =? 0)%nat then shuffle_words x else x).
  assert (Hy : words y ≡ₚ words self ∧ paused y = paused self
               ∧ config_data y = config_data self
               ∧ topmost (host y) = topmost (host self)).
  { subst y. destruct (current_index x =? 0)%nat; [|done].
    destruct (shuffle_words_fields x) as (_ & -> & _ & _ & _ & -> & ->).
    rewrite words_shuffle_words. split_and!; try done. apply shuffle_perm. }
  destruct Hy as (Hyw & Hyp & Hyc & Hyt). rewrite Hw in Hyw. intros Hs.
  destruct (show_current_word_frame _ _ Hs)
    as (Hsw & _ & Hsp & _ & Hsc & _ & Hst & _).
  rewrite Hsw, Hsp, Hsc, Hst. split_and!; try done.
  intros _. apply (show_current_word_stage _ _ Hs).
  intros Hnil. rewrite Hnil in Hyw. by apply Permutation_nil_cons in Hyw.
Qed.

Lemma reveal_current_word_frame (self s : App) :
  reveal_current_word self = Ok s →
  words s = words self
  ∧ current_index s = current_index self
  ∧ paused s = paused self
  ∧ config_data s = config_data self
  ∧ topmost (host s) = topmost (host self)
  ∧ (words self ≠ [] → stage s = StageMeaning).
Proof.
  unfold reveal_current_word.
  destruct (words self) as [|w ws] eqn:Hw.
  { intros [= <-]. by rewrite Hw. }
  destruct (list_getitem (w :: ws) (current_index self)) as [entry|e]; [|done].
  cbn. destruct (paused self) eqn:Hp; intros [= <-]; cbn; by rewrite ?Hw, ?Hp.
Qed.

(** ** The rows of [csv.DictReader] *)

Lemma foldl_insert_None_notin (ks : list string)
    (d : gmap string (option string)) (k : string) :
  k ∉ ks → foldl (λ d k, <[k := None]> d) d ks !! k = d !! k.
Proof.
  revert d. induction ks as [|k0 ks IH]; intros d Hk; [done|].
  apply not_elem_of_cons in Hk as [Hne Hk]. cbn.
  rewrite IH by done. by rewrite lookup_insert_ne.
Qed.

Lemma foldl_insert_None_in (ks : list string)
    (d : gmap string (option string)) (k : string) :
  k ∈ ks → foldl (λ d k, <[k := None]> d) d ks !! k = Some None.
Proof.
  revert d. induction ks as [|k0 ks IH]; intros d Hk; [by apply elem_of_nil in Hk|].
  cbn. destruct (decide (k ∈ ks)) as [Hin|Hout]; [by apply IH|].
  apply elem_of_cons in Hk as [->|?]; [|done].
  rewrite foldl_insert_None_notin by done. by rewrite lookup_insert_eq.
Qed.

(** The two loops of [row_dict], from any dictionary instead of the empty
    one. *)
Lemma row_dict_from_notin (fieldnames row : list string)
    (d : gmap string (option string)) (k : string) :
  k ∉ fieldnames →
  foldl (λ d k, <[k := None]> d)
    (foldl (λ d kv, <[kv.1 := Some kv.2]> d) d (zip fieldnames row))
    (drop (length row) fieldnames) !! k
  = d !! k.
Proof.
  revert row d. induction fieldnames as [|f fieldnames IH]; intros row d Hk.
  - by destruct row.
  - apply not_elem_of_cons in Hk as [Hne Hk]. destruct row as [|c row].
    + cbn. rewrite foldl_insert_None_notin by done. by rewrite lookup_insert_ne.
    + cbn. rewrite IH by done. by rewrite lookup_insert_ne.
Qed.

Lemma row_dict_from_lookup (fieldnames row : list string)
    (d : gmap string (option string)) (i : nat) (k : string) :
  NoDup fieldnames → fieldnames !! i = Some k →
  foldl (λ d k, <[k := None]> d)
    (foldl (λ d kv, <[kv.1 := Some kv.2]> d) d (zip fieldnames row))
    (drop (length row) fieldnames) !! k
  = Some (row !! i).
Proof.
  revert row d i. induction fieldnames as [|f fieldnames IH]; intros row d i Hnd Hi.
  - done.
  - apply NoDup_cons in Hnd as [Hf Hnd]. destruct row as [|c row].
    + cbn [length drop zip zip_with foldl].
      change (foldl (λ d k, <[k := None]> d) d (f :: fieldnames) !! k = Some None).
      apply foldl_insert_None_in. by eapply list_elem_of_lookup_2.
    + cbn. destruct i as [|i]; cbn in Hi |- *.
      * injection Hi as ->. rewrite row_dict_from_notin by done.
        by rewrite lookup_insert_eq.
      * by apply IH.
Qed.

Lemma row_dict_cell (fieldnames row : list string) (i : nat) (k : string) :
  NoDup fieldnames → fieldnames !! i = Some k →
  get_or_empty (row_dict fieldnames row) k = default ""%string (row !! i).
Proof.
  intros Hnd Hi. unfold get_or_empty, row_dict.
  rewrite (row_dict_from_lookup fieldnames row ∅ i k Hnd Hi).
  by destruct (row !! i).
Qed.

Section Session.

Context (strip : string → string) (int_of_str : string → option Z).

Lemma described_entries_nonblank (fieldnames : list string)
    (rows : list (list string)) :
  Forall (λ e, word e ≠ ""%string) (described_entries strip fieldnames rows).
Proof.
  apply Forall_forall. intros e. unfold described_entries.
  rewrite list_elem_of_omap. intros (row & _ & Hrow).
  unfold described_entry in Hrow. cbn zeta in Hrow.
  case_decide; [done|]. by simplify_eq.
Qed.

(** What [load_words_from_csv] returns is the described list of the rows
    after the header. *)
Lemma load_words_from_csv_Ok (path : string) (file : option (list (list string)))
    (entries : list WordEntry) :
  load_words_from_csv strip path file = Ok entries →
  ∃ fieldnames rows,
    file = Some (fieldnames :: rows)
    ∧ (∀ f, f ∈ required_fields → f ∈ fieldnames)
    ∧ entries = described_entries strip fieldnames rows.
Proof.
  destruct file as [[|fieldnames rows]|]; [done| |done].
  rewrite load_words_from_csv_header.
  destruct (forallb _ required_fields) eqn:Hall; [|done].
  intros [= <-]. exists fieldnames, rows. split; [done|].
  split; [by apply required_fields_bool|].
  by rewrite read_rows_described.
Qed.

Lemma load_words_from_path_app_inv (path : string)
    (file : option (list (list string))) (self : App) :
  engine_inv self → app_inv self →
  ∃ s b, load_words_from_path strip path file self = Ok (s, b) ∧ app_inv s.
Proof.
  intros Hinv Happ. unfold load_words_from_path.
  destruct (load_words_from_csv strip path file) as [[|e es]|exc] eqn:Hload.
  - eexists _, _. split; [done|]. apply (app_inv_intro self); [|done..].
    by eapply display_ok_ext; [..|exact (app_display _ Happ)].
  - apply load_words_from_csv_Ok in Hload as (fn & rows & _ & _ & Hentries).
    assert (Hnb : Forall (λ x, word x ≠ ""%string) (e :: es)).
    { rewrite Hentries. apply described_entries_nonblank. }
    cbn zeta.
    destruct (shuffle_words_fields (set_words (e :: es) self))
      as (Hi' & Hp' & Hj' & _ & Htk' & _ & Hc').
    pose proof (words_shuffle_words (set_words (e :: es) self)) as Hw'.
    cbn [paused set_current_index]. rewrite Hp'. cbn [paused set_words].
    destruct (paused self) eqn:Hp.
    + eexists _, _. split; [done|]. split.
      * apply display_ok_paused. cbn. by rewrite Hp'.
      * destruct (app_config _ Happ) as (a & b & t & Hc).
        exists a, b, t. cbn. by rewrite Hc'.
      * unfold words_ok.
        replace (words _) with (words (shuffle_words (set_words (e :: es) self)))
          by reflexivity.
        rewrite Hw'. cbn [words set_words]. by rewrite shuffle_perm.
    + edestruct (show_current_word_display
        (set_current_index 0 (shuffle_words (set_words (e :: es) self))))
        as (s & Hs & Hd & Hc & Hw).
      * unfold tracked. cbn. rewrite Htk', Hj'. exact (inv_tracked _ Hinv).
      * intros _. cbn. rewrite Hw', shuffle_length. cbn. lia.
      * rewrite Hs. cbn. eexists _, _. split; [done|]. split; [done| |].
        -- destruct (app_config _ Happ) as (a & b & t & Hconf).
           exists a, b, t. rewrite Hc. cbn. by rewrite Hc'.
        -- unfold words_ok. rewrite Hw.
           replace (words _)
             with (words (shuffle_words (set_words (e :: es) self)))
             by reflexivity.
           rewrite Hw'. cbn [words set_words]. by rewrite shuffle_perm.
  - eexists _, _. split; [done|]. apply (app_inv_intro self); [|done..].
    by eapply display_ok_ext; [..|exact (app_display _ Happ)].
Qed.

Lemma import_words_app_inv
    (choice : option (string * option (list (list string)))) (self : App) :
  engine_inv self → app_inv self →
  ∃ s, import_words strip choice self = Ok s ∧ app_inv s.
Proof.
  intros Hinv Happ. unfold import_words.
  destruct choice as [[path file]|]; [|by exists self].
  destruct (load_words_from_path_app_inv path file self Hinv Happ)
    as (s & b & -> & Hs). cbn.
  destruct b; eexists; (split; [done|]); [|done].
  apply (app_inv_intro s); [|done..].
  by eapply display_ok_ext; [..|exact (app_display _ Hs)].
Qed.

Lemma validate_timer_Raise (value field_name : string) (e : exn) :
  _validate_timer strip int_of_str value field_name = Raise e →
  is_value_error e = true.
Proof.
  unfold _validate_timer. intros H.
  repeat (case_match; simplify_eq/=; try done).
Qed.

Lemma save_settings_app_inv (show_text next_text : string) (top : bool)
    (self : App) :
  engine_inv self → app_inv self →
  ∃ s, save_settings strip int_of_str show_text next_text top self = Ok s
       ∧ app_inv s.
Proof.
  intros Hinv Happ. unfold save_settings.
  destruct (_validate_timer strip int_of_str show_text _) as [n1|e1] eqn:H1; cbn.
  - destruct (_validate_timer strip int_of_str next_text _) as [n2|e2] eqn:H2; cbn.
    + edestruct update_config_app_inv as (s & -> & Hs & Hc);
        [exact Hinv | exact Happ | by exists n1, n2, top |]. cbn.
      eexists. split; [done|]. apply (app_inv_intro s); [|done..].
      by eapply display_ok_ext; [..|exact (app_display _ Hs)].
    + rewrite (validate_timer_Raise _ _ _ H2).
      eexists. split; [done|]. apply (app_inv_intro self); [|done..].
      by eapply display_ok_ext; [..|exact (app_display _ Happ)].
  - rewrite (validate_timer_Raise _ _ _ H1).
    eexists. split; [done|]. apply (app_inv_intro self); [|done..].
    by eapply display_ok_ext; [..|exact (app_display _ Happ)].
Qed.

Lemma load_config_complete (file : option (result json)) :
  ∃ a b t, load_config int_of_str file = Ok (config_of a b t).
Proof.
  destruct file as [[data|e]|]; [|by exists 3%Z, 5%Z, true..].
  assert (Hcase : (∃ d, data = JDict d) ∨ (∀ d, data ≠ JDict d)).
  { destruct data; try (by right); left; by eexists. }
  destruct Hcase as [[d ->]|Hnot].
  - rewrite load_config_dict.
    destruct (int_of_json int_of_str (default (JInt 3) _)) as [a|e1];
      [|by exists 3%Z, 5%Z, true].
    destruct (int_of_json int_of_str (default (JInt 5) _)) as [b|e2];
      [|by exists 3%Z, 5%Z, true].
    by eexists _, _, _.
  - rewrite load_config_not_dict by done. by exists 3%Z, 5%Z, true.
Qed.

(** The state at the end of [__init__]. *)
Lemma init_Ok (c : option (result json)) (w : option (list (list string)))
    (g : Random) :
  ∃ a b t s,
    load_config int_of_str c = Ok (config_of a b t)
    ∧ init strip int_of_str c w g = Ok s
    ∧ config_data s = config_of a b t
    ∧ words s
      = (shuffle match load_words_from_csv strip "words.csv" w with
                 | Ok entries => entries
                 | Raise _ => []
                 end g).1
    ∧ current_index s = 0
    ∧ paused s = false
    ∧ topmost (host s) = t
    ∧ config_file (host s)
      = match c with Some _ => None | None => Some (config_of a b t) end
    ∧ display_ok s
    ∧ (words s = [] → word_label (host s) = "단어 목록이 없습니다."%string).
Proof.
  destruct (load_config_complete c) as (a & b & t & Hconf).
  exists a, b, t. unfold init. rewrite Hconf. cbn [mbind result_bind].
  set (entries := match load_words_from_csv strip "words.csv" w with
                  | Ok entries => entries
                  | Raise _ => []
                  end).
  match goal with
  | |- ∃ s, _ ∧ (let '(entries, h) := ?p in _) = _ ∧ _ =>
      assert (Hp : p.1 = entries) by
        (subst entries; by destruct (load_words_from_csv strip "words.csv" w));
      assert (Hh : config_file p.2
                   = match c with Some _ => None | None => Some (config_of a b t) end) by
        (by destruct (load_words_from_csv strip "words.csv" w));
      destruct p as [entries' h]
  end.
  cbn in Hp, Hh. subst entries'.
  set (a0 := mkApp (config_of a b t) entries 0 false [] StageWord g h (mkTk [] 0)).
  destruct (shuffle_words_fields a0) as (Hi' & Hp' & Hj' & _ & Htk' & Hh' & Hc').
  pose proof (words_shuffle_words a0) as Hw'.
  match goal with
  | |- ∃ s, _ ∧ show_current_word ?x = _ ∧ _ =>
      assert (Hx : tk x = mkTk [] 0 ∧ current_index x = 0 ∧ paused x = false
                   ∧ words x = (shuffle entries g).1
                   ∧ config_data x = config_of a b t
                   ∧ topmost (host x) = t
                   ∧ config_file (host x) = config_file h);
      [|destruct Hx as (Hxtk & Hxi & Hxp & Hxw & Hxc & Hxt & Hxf);
        destruct (show_current_word_display x) as (s & Hs & Hd & _ & _)]
  end.
  - assert (Hmatch : ∀ (l : list WordEntry) (y : App),
      let x := apply_topmost_setting
                 match l with
                 | [] => set_host (set_word_label "단어 목록이 없습니다." (host y)) y
                 | _ :: _ => y
                 end in
      tk x = tk y ∧ current_index x = current_index y ∧ paused x = paused y
      ∧ words x = words y ∧ config_data x = config_data y
      ∧ topmost (host x)
        = bool_of_pyval (default (VBool true) (config_data y !! "alwaysOnTop"%string))
      ∧ config_file (host x) = config_file (host y)).
    { intros [|? ?] y; cbn; by split_and!. }
    destruct (Hmatch (words (shuffle_words a0)) (shuffle_words a0))
      as (-> & -> & -> & -> & -> & -> & ->).
    rewrite Htk', Hi', Hp', Hc', Hh', Hw'. subst a0. cbn.
    replace (config_of a b t !! "alwaysOnTop"%string) with (Some (VBool t))
      by (unfold config_of; by simplify_map_eq).
    by split_and!.
  - intros x'. rewrite Hxtk. by intros ?%elem_of_nil.
  - intros Hne. rewrite Hxi.
    match goal with
    | |- 0 < length ?l => destruct l; [done | cbn; lia]
    end.
  - exists s. destruct (show_current_word_frame _ _ Hs)
      as (Hsw & Hsi & Hsp & _ & Hsc & _ & Hst & _ & Hsf).
    split; [done|]. split; [done|].
    split_and!; try done; try congruence.
    intros Hnil. apply (show_current_word_blank _ _ Hs). congruence.
Qed.

Lemma init_app_inv (c : option (result json)) (w : option (list (list string)))
    (g : Random) (self : App) :
  init strip int_of_str c w g = Ok self → app_inv self.
Proof.
  intros Hinit.
  destruct (init_Ok c w g)
    as (a & b & t & s & _ & Hs & Hc & Hw & _ & _ & _ & _ & Hd & _).
  assert (s = self) as -> by congruence. split; [done | by exists a, b, t |].
  unfold words_ok. rewrite Hw, shuffle_perm.
  destruct (load_words_from_csv strip "words.csv" w) as [entries|e] eqn:Hload;
    [|constructor].
  apply load_words_from_csv_Ok in Hload as (fn & rows & _ & _ & ->).
  apply described_entries_nonblank.
Qed.

Lemma step_app_inv (ev : event) (self s : App) :
  engine_inv self → app_inv self →
  step strip int_of_str ev self = Ok s → app_inv s.
Proof.
  intros Hinv Happ Hstep.
  assert (∃ s', step strip int_of_str ev self = Ok s' ∧ app_inv s')
    as (s' & Hs' & Happ').
  { destruct ev; cbn.
    - by apply fire_app_inv.
    - by apply toggle_pause_app_inv.
    - by apply save_settings_app_inv.
    - by apply import_words_app_inv. }
  congruence.
Qed.

Lemma reachable_app_inv (self : App) :
  reachable strip int_of_str self → app_inv self.
Proof.
  induction 1 as [c w g self Hinit|ev self self' Hr IH Hstep].
  - by eapply init_app_inv.
  - eapply step_app_inv; [|exact IH|exact Hstep].
    by apply (reachable_inv strip int_of_str).
Qed.

(** *** What each handler leaves alone *)

Lemma toggle_pause_frame (self s : App) :
  toggle_pause self = Ok s →
  words s = words self
  ∧ current_index s = current_index self
  ∧ config_data s = config_data self
  ∧ topmost (host s) = topmost (host self)
  ∧ paused s = negb (paused self).
Proof.
  unfold toggle_pause. destruct (paused self) eqn:Hp.
  - intros Hs. destruct (show_current_word_frame _ _ Hs)
      as (-> & -> & -> & _ & -> & _ & -> & _). by cbn.
  - intros [= <-]. by cbn.
Qed.

Lemma update_config_frame (config : gmap string pyval) (self s : App) :
  update_config config self = Ok s →
  words s = words self
  ∧ current_index s = current_index self
  ∧ paused s = paused self
  ∧ config_data s = config
  ∧ topmost (host s)
    = bool_of_pyval (default (VBool true) (config !! "alwaysOnTop"%string))
  ∧ config_file (host s) = Some config
  ∧ dialogs (host s) = dialogs (host self).
Proof.
  unfold update_config. cbn. destruct (paused self) eqn:Hp.
  - intros [= <-]. by cbn.
  - intros Hs. destruct (show_current_word_frame _ _ Hs)
      as (-> & -> & -> & _ & -> & _ & -> & -> & ->). by cbn.
Qed.

Lemma save_settings_frame (show_text next_text : string) (top : bool)
    (self s : App) :
  save_settings strip int_of_str show_text next_text top self = Ok s →
  words s = words self
  ∧ current_index s = current_index self
  ∧ paused s = paused self
  ∧ ((config_data s = config_data self
      ∧ topmost (host s) = topmost (host self)
      ∧ config_file (host s) = config_file (host self))
     ∨ (config_data s = config_of
          match _validate_timer strip int_of_str show_text "발음/뜻 표시 시간" with
          | Ok n => n | Raise _ => 0%Z end
          match _validate_timer strip int_of_str next_text "다음 단어 표시 시간" with
          | Ok n => n | Raise _ => 0%Z end top
        ∧ topmost (host s) = top
        ∧ config_file (host s) = Some (config_data s))).
Proof.
  unfold save_settings.
  destruct (_validate_timer strip int_of_str show_text _) as [n1|e1] eqn:H1; cbn.
  - destruct (_validate_timer strip int_of_str next_text _) as [n2|e2] eqn:H2; cbn.
    + destruct (update_config _ self) as [s'|e] eqn:Hu; [|done]. cbn.
      intros [= <-]. destruct (update_config_frame _ _ _ Hu)
        as (Hw & Hi & Hp & Hc & Ht & Hf & _). cbn.
      split_and!; try done. right. rewrite Hc, Ht, Hf. by split_and!.
    + rewrite (validate_timer_Raise _ _ _ H2). intros [= <-]. cbn.
      split_and!; try done. by left.
  - rewrite (validate_timer_Raise _ _ _ H1). intros [= <-]. cbn.
    split_and!; try done. by left.
Qed.

Lemma load_words_from_path_frame (path : string)
    (file : option (list (list string))) (self s : App) (b : bool) :
  load_words_from_path strip path file self = Ok (s, b) →
  config_data s = config_data self
  ∧ topmost (host s) = topmost (host self)
  ∧ paused s = paused self
  ∧ ((b = false ∧ words s = words self
      ∧ current_index s = current_index self)
     ∨ (b = true
        ∧ ∃ entries, load_words_from_csv strip path file = Ok entries
                     ∧ entries ≠ []
                     ∧ words s = (shuffle entries (rng self)).1
                     ∧ current_index s = 0)).
Proof.
  unfold load_words_from_path.
  destruct (load_words_from_csv strip path file) as [[|e es]|exc] eqn:Hload.
  - intros [= <- <-]. cbn. split_and!; try done. by left.
  - cbn zeta.
    destruct (shuffle_words_fields (set_words (e :: es) self))
      as (Hi' & Hp' & Hj' & _ & Htk' & Hh' & Hc').
    pose proof (words_shuffle_words (set_words (e :: es) self)) as Hw'.
    cbn [paused set_current_index]. rewrite Hp'. cbn [paused set_words].
    destruct (paused self) eqn:Hp.
    + intros [= <- <-]. cbn. rewrite Hc', Hh', Hp', Hw'. cbn.
      split_and!; try done. right. split; [done|]. by exists (e :: es).
    + destruct (show_current_word _) as [s'|err] eqn:Hs; [|done]. cbn.
      intros [= <- <-].
      destruct (show_current_word_frame _ _ Hs)
        as (-> & -> & -> & _ & -> & _ & -> & _). cbn.
      rewrite Hc', Hh', Hp', Hw'. cbn.
      split_and!; try done. right. split; [done|]. by exists (e :: es).
  - intros [= <- <-]. cbn. split_and!; try done. by left.
Qed.

(** ** Over the lifetime of the application *)


Lemma running_state_shape (self : App) :
  reachable strip int_of_str self →
  paused self = false →
  words self ≠ [] →
  ∃ entry t,
    words self !! current_index self = Some entry
    ∧ timers (tk self) = [t]
    ∧ word_label (host self) = word entry
    ∧ match stage self with
      | StageWord =>
          reading_label (host self) = ""%string
          ∧ meaning_label (host self) = ""%string
          ∧ action t = reveal_cb
          ∧ delay_ms t = delay_of self "showMeaningTimer"
      | StageMeaning =>
          reading_label (host self) = reading entry
          ∧ meaning_label (host self) = meaning entry
          ∧ action t = advance_cb
          ∧ delay_ms t = delay_of self "nextWordTimer"
      end.
Proof.
  intros Hr Hrun Hne.
  pose proof (reachable_inv _ _ _ Hr) as Hinv.
  pose proof (reachable_app_inv _ Hr) as Happ.
  destruct (lookup_lt_is_Some_2 (words self) (current_index self))
    as [entry Hentry]; [by apply (inv_index _ Hinv)|].
  destruct (app_display _ Happ Hrun entry Hentry) as [Hlabel Hstage].
  exists entry. destruct (stage self).
  - destruct Hstage as (? & ? & t & ? & ? & ?). exists t. by split_and!.
  - destruct Hstage as (? & ? & t & ? & ? & ?). exists t. by split_and!.
Qed.


(** X3: from the stage of the bare word of a running engine, the queued
    script leads to the stage of the meaning of the same entry, and the
    script queued then leads to the bare word of the next position,
    [(index + 1) mod length], on a deck with the same entries. *)
Theorem timer_cycle_advances_one_entry (self : App) :
  reachable strip int_of_str self →
  paused self = false →
  words self ≠ [] →
  stage self = StageWord →
  ∃ t1 s1 t2 s2,
    timers (tk self) = [t1]
    ∧ step strip int_of_str (EvTimer (handle t1)) self = Ok s1
    ∧ stage s1 = StageMeaning
    ∧ current_index s1 = current_index self
    ∧ words s1 = words self
    ∧ timers (tk s1) = [t2]
    ∧ step strip int_of_str (EvTimer (handle t2)) s1 = Ok s2
    ∧ stage s2 = StageWord
    ∧ current_index s2 = S (current_index self) `mod` length (words self)
    ∧ words s2 ≡ₚ words self
    ∧ paused s2 = false.
Proof.
  intros Hr Hrun Hne Hstage.
  destruct (running_state_shape self Hr Hrun Hne)
    as (entry & t1 & Hentry & Hq1 & _ & Hst).
  rewrite Hstage in Hst. destruct Hst as (_ & _ & Hact1 & _).
  destruct (step_inv strip int_of_str (EvTimer (handle t1)) self
              (reachable_inv _ _ _ Hr)) as (s1 & Hs1 & _).
  assert (Hr1 : reachable strip int_of_str s1) by (by eapply reachable_step).
  pose proof Hs1 as Hfire1. cbn in Hfire1.
  rewrite (fire_single _ _ Hq1), Hact1 in Hfire1.
  destruct (reveal_current_word_frame _ _ Hfire1)
    as (Hw1 & Hi1 & Hp1 & _ & _ & Hstage1).
  cbn in Hw1, Hi1, Hp1, Hstage1. specialize (Hstage1 Hne).
  assert (Hne1 : words s1 ≠ []) by (by rewrite Hw1).
  assert (Hrun1 : paused s1 = false) by (by rewrite Hp1).
  destruct (running_state_shape s1 Hr1 Hrun1 Hne1)
    as (entry1 & t2 & _ & Hq2 & _ & Hst1).
  rewrite Hstage1 in Hst1. destruct Hst1 as (_ & _ & Hact2 & _).
  destruct (step_inv strip int_of_str (EvTimer (handle t2)) s1
              (reachable_inv _ _ _ Hr1)) as (s2 & Hs2 & _).
  pose proof Hs2 as Hfire2. cbn in Hfire2.
  rewrite (fire_single _ _ Hq2), Hact2 in Hfire2.
  destruct (advance_to_next_word_ok
              (set_tk (mkTk [] (next_id (tk s1))) s1))
    as (s2' & Hs2' & Hi2 & Hp2 & _); [done|].
  assert (s2' = s2) as -> by congruence.
  destruct (advance_to_next_word_frame _ _ Hfire2) as (Hw2 & _ & _ & _ & Hstage2).
  cbn in Hi2, Hp2, Hw2, Hstage2.
  exists t1, s1, t2, s2. split_and!; try done.
  - by apply Hstage2.
  - by rewrite Hi2, Hi1, Hw1.
  - by rewrite Hw2, Hw1.
  - by rewrite Hp2.
Qed.

(** X4: the deck of a reachable state has no entry with an empty word, and
    its configuration always has the three keys, with integers for the two
    timers and a boolean for [alwaysOnTop], so that the fallback values of
    the [get] calls of the engine are never used. *)
Theorem deck_and_config_well_formed (self : App) :
  reachable strip int_of_str self →
  Forall (λ e, word e ≠ ""%string) (words self)
  ∧ ∃ a b t, config_data self = config_of a b t.
Proof.
  intros Hr. pose proof (reachable_app_inv _ Hr) as Happ. split.
  - exact (app_words _ Happ).
  - exact (app_config _ Happ).
Qed.

(** X5: an event changes the entries of the deck only when it is an import
    that read at least one entry; then the deck is a shuffle of the entries
    read and the position is 0.  Any other event (a timer, the pause button,
    the settings, an import that fails or finds nothing) leaves a deck with
    the same entries, counted with their multiplicity. *)
Theorem deck_changes_only_on_import (ev : event) (self s : App) :
  step strip int_of_str ev self = Ok s →
  words s ≡ₚ words self
  ∨ ∃ path file entries,
      ev = EvImportWords (Some (path, file))
      ∧ load_words_from_csv strip path file = Ok entries
      ∧ entries ≠ []
      ∧ words s ≡ₚ entries
      ∧ current_index s = 0.
Proof.
  destruct ev as [job| |st nt top|[[path file]|]]; cbn.
  - unfold fire. destruct (list_find _ _) as [[i x]|]; [|by intros [= <-]; left].
    destruct (action x); intros Hs; left.
    + by destruct (reveal_current_word_frame _ _ Hs) as (-> & _).
    + by destruct (advance_to_next_word_frame _ _ Hs) as (-> & _).
  - intros Hs. left. by destruct (toggle_pause_frame _ _ Hs) as (-> & _).
  - intros Hs. left. by destruct (save_settings_frame _ _ _ _ _ Hs) as (-> & _).
  - destruct (load_words_from_path strip path file self) as [[s' b]|e] eqn:Hl;
      [|done]. cbn.
    destruct (load_words_from_path_frame _ _ _ _ _ Hl)
      as (_ & _ & _ & [(-> & Hw & _)|(-> & entries & Hload & Hne & Hw & Hi)]).
    + intros [= <-]. left. by rewrite Hw.
    + intros [= <-]. right. exists path, file, entries. cbn.
      split_and!; try done. rewrite Hw. apply shuffle_perm.
  - intros [= <-]. by left.
Qed.



(** ** The settings dialog *)

(** X7: when one of the two texts does not validate, [save_settings] only
    opens an error box with the message of the first text that failed (the
    reveal timer is checked first): configuration, file, queue and display
    stay as they were. *)
Theorem save_settings_rejects (show_text next_text : string) (top : bool)
    (self : App) (e : exn) :
  _validate_timer strip int_of_str show_text "발음/뜻 표시 시간" = Raise e
  ∨ ((∃ n, _validate_timer strip int_of_str show_text "발음/뜻 표시 시간" = Ok n)
     ∧ _validate_timer strip int_of_str next_text "다음 단어 표시 시간" = Raise e) →
  save_settings strip int_of_str show_text next_text top self
  = Ok (set_host (messagebox (ShowError "설정 오류" (exn_message e)) (host self))
          self).
Proof.
  intros [H1|[[n H1] H2]]; unfold save_settings; rewrite H1; cbn.
  - by rewrite (validate_timer_Raise _ _ _ H1).
  - rewrite H2. cbn. by rewrite (validate_timer_Raise _ _ _ H2).
Qed.

Lemma stored_config_reads_back (a b : Z) (t : bool) (h : Host) :
  load_config int_of_str (stored_config (write_config (config_of a b t) h))
  = Ok (config_of a b t).
Proof.
  replace (stored_config (write_config (config_of a b t) h))
    with (Some (Ok (JDict (json_of_pyval <$> config_of a b t))))
    by reflexivity.
  rewrite load_config_dict, !lookup_fmap, !config_of_lookup.
  repeat (case_decide; try done).
Qed.


(** X9: whatever timers and flag a configuration holds, negative timers
    included, [load_config] reads back from the file what [save_config]
    wrote into it. *)
Theorem saved_config_reads_back (a b : Z) (t : bool) (self : App) :
  load_config int_of_str
    (stored_config (host (save_config (config_of a b t) self)))
  = Ok (config_of a b t).
Proof. apply stored_config_reads_back. Qed.

(** ** Importing a word list *)

(** X10: an import that reads at least one entry returns [True]; the deck
    becomes the shuffle of the entries read (the same entries, in the order
    the random generator gives) and the position 0.  On a paused engine the
    word label then asks to press play, the two other labels are blank, and
    the queue, the identifiers and the stage are untouched; on a running
    engine the first entry of the new deck is shown at the stage of the bare
    word. *)
Theorem import_replaces_deck (path : string)
    (file : option (list (list string))) (entries : list WordEntry)
    (self : App) :
  load_words_from_csv strip path file = Ok entries →
  entries ≠ [] →
  ∃ s, load_words_from_path strip path file self = Ok (s, true)
       ∧ words s = (shuffle entries (rng self)).1
       ∧ words s ≡ₚ entries
       ∧ current_index s = 0
       ∧ paused s = paused self
       ∧ config_data s = config_data self
       ∧ (paused self = true →
            word_label (host s)
            = "단어를 불러왔습니다. 재생을 눌러 시작하세요."%string
            ∧ reading_label (host s) = ""%string
            ∧ meaning_label (host s) = ""%string
            ∧ tk s = tk self
            ∧ pending_jobs s = pending_jobs self
            ∧ stage s = stage self)
       ∧ (paused self = false →
            ∃ entry, words s !! 0 = Some entry
                     ∧ word_label (host s) = word entry
                     ∧ reading_label (host s) = ""%string
                     ∧ meaning_label (host s) = ""%string
                     ∧ stage s = StageWord).
Proof.
  intros Hload Hne. unfold load_words_from_path. rewrite Hload.
  destruct entries as [|e es]; [done|]. cbn zeta.
  set (x := shuffle_words (set_words (e :: es) self)).
  destruct (shuffle_words_fields (set_words (e :: es) self))
    as (Hi' & Hp' & Hj' & Hst' & Htk' & Hh' & Hc').
  pose proof (words_shuffle_words (set_words (e :: es) self)) as Hw'.
  fold x in Hi', Hp', Hj', Hst', Htk', Hh', Hc', Hw'.
  cbn [words rng paused config_data pending_jobs stage tk host set_words]
    in Hw', Hp', Hc', Hj', Hst', Htk', Hh'.
  clearbody x.
  cbn [paused set_current_index]. rewrite Hp'.
  assert (Hperm : words x ≡ₚ e :: es) by (rewrite Hw'; apply shuffle_perm).
  set (sh := (shuffle (e :: es) (rng self)).1) in *. clearbody sh.
  destruct (words x) as [|entry rest] eqn:Hwx.
  { by apply Permutation_nil_cons in Hperm. }
  destruct (paused self) eqn:Hp.
  - eexists. split; [done|]. cbn. rewrite Hwx, Hp', Hc', Htk', Hj', Hst'.
    by split_and!.
  - assert (Hentry : words (set_current_index 0 x)
                     !! current_index (set_current_index 0 x) = Some entry)
      by (cbn; by rewrite Hwx).
    rewrite (show_current_word_entry _ _ Hentry). cbn zeta.
    cbn [paused set_current_index]. rewrite Hp'. cbn [mbind result_bind mret result_ret].
    eexists. split; [done|]. cbn. rewrite Hwx, Hp', Hc'.
    split_and!; try done. intros _. by exists entry.
Qed.

(** X11: when the chosen file is missing, or has no header row, or has a
    header without one of the three columns, [load_words_from_path] opens an
    error box with the message of the exception and returns [False], and
    [import_words] ends there: nothing but the box is new.  Dismissing the
    file dialog changes nothing at all. *)
Theorem import_failure_changes_nothing (path : string)
    (file : option (list (list string))) (self : App) :
  (file = None ∨ file = Some []
   ∨ ∃ fieldnames rows f, file = Some (fieldnames :: rows)
                          ∧ f ∈ required_fields ∧ f ∉ fieldnames) →
  (∃ exc, load_words_from_csv strip path file = Raise exc
          ∧ load_words_from_path strip path file self
            = Ok (set_host (messagebox
                    (ShowError "단어 불러오기"
                       ("CSV 파일을 불러오는 중 오류가 발생했습니다: "
                        ++ exn_message exc)%string)
                    (host self)) self, false)
          ∧ import_words strip (Some (path, file)) self
            = Ok (set_host (messagebox
                    (ShowError "단어 불러오기"
                       ("CSV 파일을 불러오는 중 오류가 발생했습니다: "
                        ++ exn_message exc)%string)
                    (host self)) self)
          ∧ (file = None →
             exc = FileNotFoundError (path ++ " 파일이 존재하지 않습니다.")%string))
  ∧ import_words strip None self = Ok self.
Proof.
  intros Hbad. split; [|done].
  assert (Hraise : ∃ exc, load_words_from_csv strip path file = Raise exc
                          ∧ (file = None →
                             exc = FileNotFoundError
                                     (path ++ " 파일이 존재하지 않습니다.")%string)).
  { destruct Hbad as [->|[->|(fn & rows & f & -> & Hreq & Hmiss)]].
    - by eexists.
    - by eexists.
    - rewrite load_words_from_csv_header.
      destruct (forallb _ required_fields) eqn:Hall; [|by eexists].
      destruct Hmiss. by apply (proj1 (required_fields_bool _) Hall). }
  destruct Hraise as (exc & Hexc & Hmsg). exists exc.
  unfold import_words, load_words_from_path. rewrite Hexc. by split_and!.
Qed.

(** X12: every entry that [load_words_from_csv] returns has a word that is
    not empty, and there is at most one entry for each row after the
    header. *)
Theorem loaded_entries_have_words (path : string) (lines : list (list string))
    (entries : list WordEntry) :
  load_words_from_csv strip path (Some lines) = Ok entries →
  Forall (λ e, word e ≠ ""%string) entries
  ∧ length entries ≤ length lines - 1.
Proof.
  intros Hload.
  apply load_words_from_csv_Ok in Hload as (fn & rows & [= ->] & _ & ->).
  split; [apply described_entries_nonblank|].
  unfold described_entries. cbn.
  etrans; [apply omap_length_le|]. etrans; [apply length_filter|]. lia.
Qed.

(** ** Pausing, closing, starting *)

(** X13: pressing pause on a running engine empties the queue and
    [pending_jobs] and hands out no identifier; deck, position, stage and the
    three labels stay as they are, the button now offers to play, and until
    the next press no timer event changes anything. *)
Theorem pause_freezes_engine (self : App) :
  reachable strip int_of_str self →
  paused self = false →
  ∃ s, toggle_pause self = Ok s
       ∧ paused s = true
       ∧ timers (tk s) = []
       ∧ pending_jobs s = []
       ∧ next_id (tk s) = next_id (tk self)
       ∧ words s = words self
       ∧ current_index s = current_index self
       ∧ stage s = stage self
       ∧ word_label (host s) = word_label (host self)
       ∧ reading_label (host s) = reading_label (host self)
       ∧ meaning_label (host s) = meaning_label (host self)
       ∧ pause_button (host s) = "재생"%string
       ∧ ∀ job, step strip int_of_str (EvTimer job) s = Ok s.
Proof.
  intros Hr Hrun. pose proof (reachable_inv _ _ _ Hr) as Hinv.
  unfold toggle_pause. rewrite Hrun. eexists. split; [done|].
  assert (Hq : timers (tk (cancel_pending_jobs
                 (set_host (set_pause_button "재생" (host (set_paused true self)))
                    (set_paused true self)))) = []).
  { apply cancel_pending_jobs_clears. exact (inv_tracked _ Hinv). }
  split_and!; try done.
  - apply cancel_all_next_id.
  - intros job. cbn [step]. by apply fire_idle.
Qed.

(** X14: closing the window of a reachable application leaves no script in
    the queue and an empty [pending_jobs]. *)
Theorem on_close_empties_queue (self : App) :
  reachable strip int_of_str self →
  timers (tk (on_close self)) = []
  ∧ pending_jobs (on_close self) = []
  ∧ words (on_close self) = words self.
Proof.
  intros Hr. pose proof (reachable_inv _ _ _ Hr) as Hinv. split_and!; try done.
  apply cancel_pending_jobs_clears. exact (inv_tracked _ Hinv).
Qed.


(** X16: the columns are found by name, not by position.  For a header
    without a repeated name that has [word], [reading] and [meaning] at the
    positions [iw], [ir] and [im], a row gives the entry of its trimmed cells
    at these positions, where a cell that a short row lacks counts as empty;
    blank lines and rows with an empty trimmed word give none. *)
Theorem columns_are_found_by_name (path : string) (fieldnames : list string)
    (rows : list (list string)) (iw ir im : nat) :
  NoDup fieldnames →
  fieldnames !! iw = Some "word"%string →
  fieldnames !! ir = Some "reading"%string →
  fieldnames !! im = Some "meaning"%string →
  load_words_from_csv strip path (Some (fieldnames :: rows))
  = Ok (omap (λ row,
          if decide (strip (default ""%string (row !! iw)) = ""%string) then None
          else Some (mkWordEntry (strip (default ""%string (row !! iw)))
                                 (strip (default ""%string (row !! ir)))
                                 (strip (default ""%string (row !! im)))))
        (filter (λ row, row ≠ []) rows)).
Proof.
  intros Hnd Hw Hr Hm. rewrite load_words_from_csv_header.
  rewrite (proj2 (required_fields_bool fieldnames)).
  - rewrite read_rows_described. cbn [app]. f_equal.
    unfold described_entries. apply list_omap_ext.
    apply Forall2_same_length_lookup. split; [done|].
    intros i row row' Hrow Hrow'. assert (row' = row) as -> by congruence.
    unfold described_entry. cbn zeta.
    by rewrite !(row_dict_cell fieldnames row _ _ Hnd Hw),
               !(row_dict_cell fieldnames row _ _ Hnd Hr),
               !(row_dict_cell fieldnames row _ _ Hnd Hm).
  - intros f Hf. unfold required_fields in Hf.
    repeat (apply elem_of_cons in Hf as [->|Hf];
            [by eapply list_elem_of_lookup_2|]).
    by apply elem_of_nil in Hf.
Qed.

End Session.

(** ** Replacing the configuration, cancelling, dragging *)


(** X18: [cancel_pending_jobs] takes out of the queue exactly the scripts
    whose identifier is listed in [pending_jobs], empties the list, hands
    out no identifier and touches nothing else; cancelling again changes
    nothing. *)
Theorem cancel_pending_jobs_exact (self : App) :
  timers (tk (cancel_pending_jobs self))
  = filter (λ x, handle x ∉ pending_jobs self) (timers (tk self))
  ∧ pending_jobs (cancel_pending_jobs self) = []
  ∧ next_id (tk (cancel_pending_jobs self)) = next_id (tk self)
  ∧ set_tk (tk self) (set_pending_jobs (pending_jobs self) (cancel_pending_jobs self))
    = self
  ∧ cancel_pending_jobs (cancel_pending_jobs self) = cancel_pending_jobs self.
Proof.
  split_and!.
  - apply cancel_all_timers.
  - done.
  - apply cancel_all_next_id.
  - by destruct self.
  - unfold cancel_pending_jobs at 1. cbn [pending_jobs set_pending_jobs foldl].
    unfold cancel_pending_jobs. by destruct self.
Qed.

(** X19: while the window is dragged, the position it is moved to differs
    from its position at the press by exactly the way the pointer has gone
    since; with the pointer where it was pressed, that is the position of the
    window itself. *)
Theorem drag_follows_pointer (press move : Pointer) (winfo_x winfo_y : Z) :
  do_move move (start_move press winfo_x winfo_y)
  = ((winfo_x + (x_root move - x_root press))%Z,
     (winfo_y + (y_root move - y_root press))%Z)
  ∧ do_move press (start_move press winfo_x winfo_y) = (winfo_x, winfo_y).
Proof.
  unfold do_move, start_move. cbn. split; f_equal; lia.
Qed.

(** * The further properties on the sample inputs *)

Lemma sample_app_reachable : reachable strip_ascii int_of_decimal sample_app.
Proof.
  apply (reachable_init _ _ None sample_csv sample_rng). vm_compute. reflexivity.
Qed.



Lemma timer_cycle_advances_one_entry_witness :
  reachable strip_ascii int_of_decimal sample_app
  ∧ paused sample_app = false
  ∧ words sample_app ≠ []
  ∧ stage sample_app = StageWord
  ∧ ∃ t1 s1 t2 s2,
      timers (tk sample_app) = [t1]
      ∧ step strip_ascii int_of_decimal (EvTimer (handle t1)) sample_app = Ok s1
      ∧ timers (tk s1) = [t2]
      ∧ step strip_ascii int_of_decimal (EvTimer (handle t2)) s1 = Ok s2
      ∧ current_index s2 = 1.
Proof.
  split; [exact sample_app_reachable|]. split; [reflexivity|].
  split; [discriminate|]. split; [reflexivity|].
  destruct (timer_cycle_advances_one_entry strip_ascii int_of_decimal sample_app
              sample_app_reachable)
    as (t1 & s1 & t2 & s2 & H1 & H2 & _ & _ & _ & H3 & H4 & _ & H5 & _);
    [reflexivity | discriminate | reflexivity |].
  exists t1, s1, t2, s2. split; [exact H1|]. split; [exact H2|].
  split; [exact H3|]. split; [exact H4 | exact H5].
Defined.

Lemma deck_and_config_well_formed_witness :
  reachable strip_ascii int_of_decimal sample_app
  ∧ Forall (λ e, word e ≠ ""%string) (words sample_app).
Proof.
  split; [exact sample_app_reachable|].
  exact (proj1 (deck_and_config_well_formed strip_ascii int_of_decimal
                  sample_app sample_app_reachable)).
Defined.

Lemma deck_changes_only_on_import_witness :
  ∃ s, step strip_ascii int_of_decimal
         (EvImportWords (Some ("more.csv"%string, sample_csv))) sample_app = Ok s
       ∧ (words s ≡ₚ words sample_app
          ∨ ∃ path file entries,
              EvImportWords (Some ("more.csv"%string, sample_csv))
              = EvImportWords (Some (path, file))
              ∧ load_words_from_csv strip_ascii path file = Ok entries
              ∧ entries ≠ []
              ∧ words s ≡ₚ entries
              ∧ current_index s = 0).
Proof.
  destruct (step_inv strip_ascii int_of_decimal
              (EvImportWords (Some ("more.csv"%string, sample_csv))) sample_app
              (reachable_inv _ _ _ sample_app_reachable)) as (s & Hs & _).
  exists s. split; [exact Hs|].
  exact (deck_changes_only_on_import strip_ascii int_of_decimal _ _ _ Hs).
Defined.


Lemma save_settings_rejects_witness :
  _validate_timer strip_ascii int_of_decimal "-3" "발음/뜻 표시 시간"
  = Raise (ValueError "발음/뜻 표시 시간은(는) 0 이상이어야 합니다.")
  ∧ save_settings strip_ascii int_of_decimal "-3" "2" true sample_app
    = Ok (set_host (messagebox
            (ShowError "설정 오류" "발음/뜻 표시 시간은(는) 0 이상이어야 합니다.")
            (host sample_app)) sample_app).
Proof.
  split; [vm_compute; reflexivity|].
  apply (save_settings_rejects strip_ascii int_of_decimal "-3" "2" true
           sample_app
           (ValueError "발음/뜻 표시 시간은(는) 0 이상이어야 합니다.")).
  left. vm_compute. reflexivity.
Defined.


Lemma import_replaces_deck_witness :
  load_words_from_csv strip_ascii "more.csv" sample_csv
  = Ok [mkWordEntry "猫" "ねこ" "cat"; mkWordEntry "犬" "いぬ" "";
        mkWordEntry "鳥" "とり" "bird"]%string
  ∧ ∃ s, load_words_from_path strip_ascii "more.csv" sample_csv sample_app
         = Ok (s, true)
         ∧ current_index s = 0
         ∧ words s ≡ₚ [mkWordEntry "猫" "ねこ" "cat"; mkWordEntry "犬" "いぬ" "";
                       mkWordEntry "鳥" "とり" "bird"]%string.
Proof.
  split; [vm_compute; reflexivity|].
  destruct (import_replaces_deck strip_ascii "more.csv" sample_csv
              [mkWordEntry "猫" "ねこ" "cat"; mkWordEntry "犬" "いぬ" "";
               mkWordEntry "鳥" "とり" "bird"]%string sample_app)
    as (s & H1 & _ & H2 & H3 & _); [vm_compute; reflexivity | discriminate |].
  exists s. split; [exact H1|]. split; [exact H3 | exact H2].
Defined.

Lemma import_failure_changes_nothing_witness :
  ∃ exc, load_words_from_csv strip_ascii "gone.csv" None = Raise exc
         ∧ import_words strip_ascii (Some ("gone.csv"%string, None)) sample_app
           = Ok (set_host (messagebox
                   (ShowError "단어 불러오기"
                      ("CSV 파일을 불러오는 중 오류가 발생했습니다: "
                       ++ exn_message exc)%string)
                   (host sample_app)) sample_app).
Proof.
  destruct (import_failure_changes_nothing strip_ascii "gone.csv" None sample_app)
    as [(exc & H1 & _ & H2 & _) _]; [by left|].
  exists exc. split; [exact H1 | exact H2].
Defined.

Lemma loaded_entries_have_words_witness :
  ∃ lines entries,
    sample_csv = Some lines
    ∧ load_words_from_csv strip_ascii "words.csv" (Some lines) = Ok entries
    ∧ Forall (λ e, word e ≠ ""%string) entries
    ∧ length entries ≤ length lines - 1.
Proof.
  eexists _, _. split; [reflexivity|].
  assert (Hload : load_words_from_csv strip_ascii "words.csv" sample_csv
                  = Ok [mkWordEntry "猫" "ねこ" "cat"; mkWordEntry "犬" "いぬ" "";
                        mkWordEntry "鳥" "とり" "bird"]%string)
    by (vm_compute; reflexivity).
  split; [exact Hload|].
  exact (loaded_entries_have_words strip_ascii "words.csv" _ _ Hload).
Defined.

Lemma pause_freezes_engine_witness :
  reachable strip_ascii int_of_decimal sample_app
  ∧ paused sample_app = false
  ∧ ∃ s, toggle_pause sample_app = Ok s
         ∧ timers (tk s) = []
         ∧ step strip_ascii int_of_decimal (EvTimer 0) s = Ok s.
Proof.
  split; [exact sample_app_reachable|]. split; [reflexivity|].
  destruct (pause_freezes_engine strip_ascii int_of_decimal sample_app
              sample_app_reachable)
    as (s & H1 & _ & H2 & _ & _ & _ & _ & _ & _ & _ & _ & _ & H3); [reflexivity|].
  exists s. split; [exact H1|]. split; [exact H2 | exact (H3 0)].
Defined.

Lemma on_close_empties_queue_witness :
  reachable strip_ascii int_of_decimal sample_app
  ∧ timers (tk (on_close sample_app)) = [].
Proof.
  split; [exact sample_app_reachable|].
  exact (proj1 (on_close_empties_queue strip_ascii int_of_decimal sample_app
                  sample_app_reachable)).
Defined.

Lemma columns_are_found_by_name_witness :
  NoDup ["meaning"; "level"; "word"; "reading"]%string
  ∧ load_words_from_csv strip_ascii "w.csv"
      (Some [["meaning"; "level"; "word"; "reading"];
             ["cat"; "N5"; " 猫 "; "ねこ"];
             ["dog"; "N5"; "犬"]]%string)
    = Ok [mkWordEntry "猫" "ねこ" "cat"; mkWordEntry "犬" "" "dog"]%string.
Proof.
  assert (Hnd : NoDup ["meaning"; "level"; "word"; "reading"]%string).
  { apply (bool_decide_unpack _). vm_compute. exact I. }
  split; [exact Hnd|].
  rewrite (columns_are_found_by_name strip_ascii "w.csv"
             ["meaning"; "level"; "word"; "reading"]%string
             [["cat"; "N5"; " 猫 "; "ねこ"]; ["dog"; "N5"; "犬"]]%string
             2 3 0 Hnd); [|reflexivity..].
  vm_compute. reflexivity.
Defined.

